(** * av: stacked branches -- [cmd/av/branch.go]

    A shallow embedding of the two branch-graph operations of the [av]
    command, [createBranch] (adopt) and [branchMove] (rename), together with
    the two collaborators they drive: the Git repository and the branch
    metadata database. The operations are transcribed statement by statement
    from [cmd/av/branch.go]; the collaborators live in packages outside that
    file ([internal/git], [internal/meta], [internal/utils/cleanup]) and are
    modelled from the specification. *)

From stdpp Require Import gmap strings list fin_maps.
From Stdlib Require Import ZArith Ascii String.

Open Scope string_scope.

(** ** Helpers of Go's [strings] package *)

Module strings.

(** [strings.Count(s, sep)] for a one-byte separator. *)
Fixpoint Count (s : string) (sep : ascii) : nat :=
  match s with
  | EmptyString => 0
  | String c rest =>
      if Ascii.eqb c sep then S (Count rest sep) else Count rest sep
  end.

(** [strings.ContainsRune(s, r)] for an ASCII rune. *)
Fixpoint ContainsRune (s : string) (r : ascii) : bool :=
  match s with
  | EmptyString => false
  | String c rest => if Ascii.eqb c r then true else ContainsRune rest r
  end.

(** [strings.Cut(s, sep)] for a one-byte separator: the text before and
    after the first separator, and whether a separator was found. *)
Fixpoint Cut (s : string) (sep : ascii) : string * string * bool :=
  match s with
  | EmptyString => (EmptyString, EmptyString, false)
  | String c rest =>
      if Ascii.eqb c sep then (EmptyString, rest, true)
      else
        match Cut rest sep with
        | (before, after, true) => (String c before, after, true)
        | (_, _, false) => (s, EmptyString, false)
        end
  end.

Fixpoint stripPrefix (s prefix : string) : option string :=
  match prefix, s with
  | EmptyString, _ => Some s
  | String p prefix', String c s' =>
      if Ascii.eqb p c then stripPrefix s' prefix' else None
  | String _ _, EmptyString => None
  end.

(** [strings.TrimPrefix(s, prefix)]. *)
Definition TrimPrefix (s prefix : string) : string :=
  match stripPrefix s prefix with
  | Some rest => rest
  | None => s
  end.

End strings.

Definition colon : ascii := ":"%char.

(** ** Branch metadata ([internal/meta])

    Modelled from the spec: the records of section 3. [BranchState] is the
    reference to a parent, [Branch] the unit of metadata. Field [F] of Go
    type [T] is the projection [T_F]. *)

Record BranchState : Type := mkBranchState {
  BranchState_Name : string;
  BranchState_Trunk : bool;
  BranchState_Head : string
}.

Record PullRequest : Type := mkPullRequest {
  PullRequest_Number : Z
}.

Record Branch : Type := mkBranch {
  Branch_Name : string;
  Branch_Parent : BranchState;
  Branch_PullRequest : option PullRequest
}.

(** The zero value of [meta.Branch], what [tx.Branch] hands back together
    with [false] for a name that has no record. *)
Definition Branch_zero : Branch :=
  mkBranch EmptyString (mkBranchState EmptyString false EmptyString) None.

Definition parentName (b : Branch) : string :=
  BranchState_Name (Branch_Parent b).

(** Field assignments [b.Name = n], [b.Parent = p], [b.PullRequest = nil]
    and [b.Parent.Name = n]. *)
Definition set_Name (n : string) (b : Branch) : Branch :=
  mkBranch n (Branch_Parent b) (Branch_PullRequest b).

Definition set_Parent (p : BranchState) (b : Branch) : Branch :=
  mkBranch (Branch_Name b) p (Branch_PullRequest b).

Definition set_PullRequest (pr : option PullRequest) (b : Branch) : Branch :=
  mkBranch (Branch_Name b) (Branch_Parent b) pr.

Definition set_Parent_Name (n : string) (b : Branch) : Branch :=
  set_Parent
    (mkBranchState n (BranchState_Trunk (Branch_Parent b))
                     (BranchState_Head (Branch_Parent b)))
    b.

(** ** Errors *)

Inductive GitOp : Type :=
| OpDefaultBranch
| OpCurrentBranchName
| OpIsTrunkBranch
| OpRevParse
| OpCheckoutBranch
| OpDoesBranchExist
| OpBranchDelete
| OpRun.

#[global] Instance GitOp_eq_dec : EqDecision GitOp.
Proof. solve_decision. Defined.

(** The error values [createBranch] and [branchMove] can return:
    [errors.New]/[errors.Errorf], [errors.WrapIf]/[errors.WrapIff] (format
    text and arguments kept apart), the failure of a Git call, the sentinel
    [errParentNotAdopted], [actions.ErrExitSilently] and a failed commit. *)
Inductive error : Type :=
| New (msg : string)
| Wrap (cause : error) (format : string) (args : list string)
| GitError (op : GitOp)
| errParentNotAdopted
| ErrExitSilently (ExitCode : Z)
| CommitError.

(** ** The metadata database and its write transaction ([meta.DB])

    Modelled from the spec: a key-value store of [Branch] records keyed by
    branch name, with one write transaction that stages [SetBranch] and
    [DeleteBranch] over a copy of the committed records and ends in
    [Commit] (the staged copy becomes the committed one) or [Abort] (the
    staged copy is dropped). [commitFails] is the environment's choice of
    whether [Commit] reports an error. *)

Inductive TxState : Type :=
| TxNone
| TxOpen (staged : gmap string Branch)
| TxCommitted
| TxAborted.

Record DB : Type := mkDB {
  branches : gmap string Branch;
  commitFails : bool;
  tx : TxState
}.

Definition WriteTx (d : DB) : DB :=
  mkDB (branches d) (commitFails d) (TxOpen (branches d)).

(** What reads inside the transaction see. *)
Definition txView (d : DB) : gmap string Branch :=
  match tx d with
  | TxOpen staged => staged
  | _ => branches d
  end.

Definition stage (f : gmap string Branch -> gmap string Branch) (d : DB) : DB :=
  match tx d with
  | TxOpen staged => mkDB (branches d) (commitFails d) (TxOpen (f staged))
  | _ => d
  end.

(** [tx.Branch(name)]. *)
Definition Tx_Branch (d : DB) (name : string) : Branch * bool :=
  match txView d !! name with
  | Some b => (b, true)
  | None => (Branch_zero, false)
  end.

(** [tx.SetBranch(b)]: the record is stored under its own name. *)
Definition SetBranch (b : Branch) (d : DB) : DB :=
  stage (fun m => <[Branch_Name b := b]> m) d.

(** [tx.DeleteBranch(name)]. *)
Definition DeleteBranch (name : string) (d : DB) : DB :=
  stage (fun m => delete name m) d.

(** [tx.AllBranches()]. *)
Definition AllBranches (d : DB) : list Branch :=
  (map_to_list (txView d)).*2.

(** [meta.Children(tx, name)]: the records visible in the transaction whose
    parent name is [name]. *)
Definition Children (d : DB) (name : string) : list Branch :=
  filter (fun b => parentName b = name) (AllBranches d).

(** [tx.Commit()]. *)
Definition Commit (d : DB) : option error * DB :=
  if commitFails d then (Some CommitError, d)
  else
    match tx d with
    | TxOpen staged => (None, mkDB staged (commitFails d) TxCommitted)
    | _ => (Some CommitError, d)
    end.

(** [tx.Abort()]. *)
Definition Abort (d : DB) : DB :=
  match tx d with
  | TxOpen _ => mkDB (branches d) (commitFails d) TxAborted
  | _ => d
  end.

(** ** The Git repository ([git.Repo])

    Modelled from the spec: the version-control adapter of section 6, with
    Git's behaviour for the calls [branch.go] makes. A repository has a
    default (trunk) branch, possibly further trunk branches, a remote name,
    the checked-out branch, its local branches and the other revisions it can
    resolve (remote-tracking refs), each pointing at a commit. [failing]
    lists the calls that break for reasons outside this model (I/O, hooks);
    [journal] records every call that asks Git to change something. *)

Inductive GitCall : Type :=
| CallCheckoutBranch (Name : string) (NewBranch : bool) (NewHeadRef : string)
| CallBranchDelete (name : string)
| CallRun (Args : list string).

Record Repo : Type := mkRepo {
  defaultBranch : option string;
  additionalTrunkBranches : list string;
  remoteName : string;
  currentBranch : option string;
  heads : gmap string string;
  otherRevs : gmap string string;
  failing : list GitOp;
  journal : list GitCall
}.

Definition fails (r : Repo) (op : GitOp) : bool :=
  bool_decide (op ∈ failing r).

(** The part of a repository that the mutating calls change. *)
Definition update (r : Repo) (cur : option string) (hs : gmap string string)
    (call : GitCall) : Repo :=
  mkRepo (defaultBranch r) (additionalTrunkBranches r) (remoteName r)
         cur hs (otherRevs r) (failing r) (journal r ++ [call])%list.

Definition record_call (r : Repo) (call : GitCall) : Repo :=
  update r (currentBranch r) (heads r) call.

(** [repo.DefaultBranch()]. *)
Definition DefaultBranch (r : Repo) : option string := defaultBranch r.

(** [repo.CurrentBranchName()]: an error on a detached HEAD. *)
Definition CurrentBranchName (r : Repo) : option string := currentBranch r.

(** [repo.GetRemoteName()]. *)
Definition GetRemoteName (r : Repo) : string := remoteName r.

(** Whether [name] is one of the repository's trunk branches. *)
Definition isTrunkName (r : Repo) (name : string) : bool :=
  match defaultBranch r with
  | Some d => bool_decide (name = d)
  | None => false
  end
  || bool_decide (name ∈ additionalTrunkBranches r).

(** [repo.IsTrunkBranch(name)]. *)
Definition IsTrunkBranch (r : Repo) (name : string) : option bool :=
  if fails r OpIsTrunkBranch then None
  else
    match defaultBranch r with
    | Some _ => Some (isTrunkName r name)
    | None => None
    end.

(** [repo.RevParse(&git.RevParse{Rev: rev})]: the commit of a local branch
    or of another known revision. *)
Definition RevParse (r : Repo) (rev : string) : option string :=
  if fails r OpRevParse then None
  else
    match heads r !! rev with
    | Some c => Some c
    | None => otherRevs r !! rev
    end.

(** [repo.DoesBranchExist(name)]. *)
Definition DoesBranchExist (r : Repo) (name : string) : option bool :=
  if fails r OpDoesBranchExist then None
  else Some (bool_decide (is_Some (heads r !! name))).

(** [repo.CheckoutBranch(&git.CheckoutBranch{Name, NewBranch, NewHeadRef})]:
    [git checkout -b Name NewHeadRef] when [NewBranch] is set (refused when
    the branch exists), [git checkout Name] otherwise (refused when it does
    not). [NewHeadRef] is the commit the new branch starts at: [branch.go]
    hands over a resolved commit hash. The result is [true] on success. *)
Definition CheckoutBranch (r : Repo) (Name : string) (NewBranch : bool)
    (NewHeadRef : string) : bool * Repo :=
  let call := CallCheckoutBranch Name NewBranch NewHeadRef in
  if fails r OpCheckoutBranch then (false, record_call r call)
  else if NewBranch then
    match heads r !! Name with
    | Some _ => (false, record_call r call)
    | None =>
        (true, update r (Some Name) (<[Name := NewHeadRef]> (heads r)) call)
    end
  else
    match heads r !! Name with
    | Some _ => (true, update r (Some Name) (heads r) call)
    | None => (false, record_call r call)
    end.

(** [repo.BranchDelete(name)]: refused for a missing branch and for the
    branch that is checked out. *)
Definition BranchDelete (r : Repo) (name : string) : bool * Repo :=
  let call := CallBranchDelete name in
  if fails r OpBranchDelete then (false, record_call r call)
  else
    match heads r !! name with
    | None => (false, record_call r call)
    | Some _ =>
        if bool_decide (currentBranch r = Some name)
        then (false, record_call r call)
        else (true, update r (currentBranch r) (delete name (heads r)) call)
    end.

(** [git branch -m old new]: refused when [old] is missing or when another
    branch is already called [new]; the checked-out branch follows. *)
Definition renameHead (r : Repo) (old new : string) (call : GitCall)
    : bool * Repo :=
  match heads r !! old with
  | None => (false, record_call r call)
  | Some commit =>
      if bool_decide (old = new) then (true, record_call r call)
      else
        match heads r !! new with
        | Some _ => (false, record_call r call)
        | None =>
            (true,
             update r
               (if bool_decide (currentBranch r = Some old)
                then Some new else currentBranch r)
               (<[new := commit]> (delete old (heads r)))
               call)
        end
  end.

(** [repo.Run(&git.RunOpts{Args, ExitError: true})] for the [git branch -m]
    command lines: with one name Git renames the branch that is checked
    out, with two names the branch named first. Other command lines are
    outside this model and report an error. *)
Definition Run (r : Repo) (Args : list string) : bool * Repo :=
  let call := CallRun Args in
  if fails r OpRun then (false, record_call r call)
  else
    match Args with
    | ["branch"; "-m"; new] =>
        match currentBranch r with
        | Some cur => renameHead r cur new call
        | None => (false, record_call r call)
        end
    | ["branch"; "-m"; old; new] => renameHead r old new call
    | _ => (false, record_call r call)
    end.

(** ** Running an operation

    Both operations thread the repository, the database with its open
    transaction and the cleanup stack, and leave at the first error. *)

(** A registered cleanup action: a closure over the repository and the
    transaction. *)
Definition Action : Type := Repo * DB -> Repo * DB.

Record St : Type := mkSt {
  st_repo : Repo;
  st_db : DB;
  st_cu : list Action
}.

Definition M (A : Type) : Type := St -> (error + A) * St.

Definition ret {A} (a : A) : M A := fun s => (inr a, s).

Definition fail {A} (e : error) : M A := fun s => (inl e, s).

Definition bind {A B} (m : M A) (k : A -> M B) : M B :=
  fun s =>
    match m s with
    | (inl e, s') => (inl e, s')
    | (inr a, s') => k a s'
    end.

Notation "x <- m ;; k" := (bind m (fun x => k))
  (at level 100, m at next level, right associativity).
Notation "m ;;; k" := (bind m (fun _ => k))
  (at level 100, right associativity).

(** A Git call that only reads. *)
Definition query {A} (op : GitOp) (f : Repo -> option A) : M A :=
  fun s =>
    match f (st_repo s) with
    | Some a => (inr a, s)
    | None => (inl (GitError op), s)
    end.

(** A Git call that changes the repository. *)
Definition perform (op : GitOp) (f : Repo -> bool * Repo) : M unit :=
  fun s =>
    let '(ok, r) := f (st_repo s) in
    let s' := mkSt r (st_db s) (st_cu s) in
    if ok then (inr tt, s') else (inl (GitError op), s').

(** A read through the transaction. *)
Definition readTx {A} (f : DB -> A) : M A := fun s => (inr (f (st_db s)), s).

(** A write through the transaction. *)
Definition writeTx (f : DB -> DB) : M unit :=
  fun s => (inr tt, mkSt (st_repo s) (f (st_db s)) (st_cu s)).

(** [errors.WrapIf(err, format)] and [errors.WrapIff(err, format, args...)]
    at a [return]: an error is wrapped, success is passed on. *)
Definition wrapIf {A} (m : M A) (format : string) (args : list string) : M A :=
  fun s =>
    match m s with
    | (inl e, s') => (inl (Wrap e format args), s')
    | (inr a, s') => (inr a, s')
    end.

(** *** The cleanup stack ([internal/utils/cleanup])

    Modelled from the spec (section 4.1): [New] starts the stack with its
    first action, [Add] registers one more, [Cancel] drops them all, and
    [Cleanup], deferred to the end of the operation, runs what is still
    registered, last registered first. *)
Module cleanup.

Definition New (f : Action) : list Action := [f].

Definition Add (f : Action) : M unit :=
  fun s => (inr tt, mkSt (st_repo s) (st_db s) (st_cu s ++ [f])%list).

Definition Cancel : M unit :=
  fun s => (inr tt, mkSt (st_repo s) (st_db s) []).

Definition Cleanup (fns : list Action) (w : Repo * DB) : Repo * DB :=
  foldl (fun w f => f w) w (rev fns).

End cleanup.

(** [cu := cleanup.New(f); defer cu.Cleanup(); body]: the body runs with the
    stack [cu]; whatever it returns, the actions left on the stack run
    before the operation hands back its error. *)
Definition deferred (cu : list Action) (body : M unit) (r : Repo) (d : DB)
    : option error * Repo * DB :=
  let '(res, s) := body (mkSt r d cu) in
  let '(r', d') := cleanup.Cleanup (st_cu s) (st_repo s, st_db s) in
  (match res with inl e => Some e | inr _ => None end, r', d').

(** The first cleanup action of both operations: [tx.Abort()]. *)
Definition abortTx : Action := fun '(r, d) => (r, Abort d).

(** [tx.Commit()] as the last statement. *)
Definition commitTx : M unit :=
  fun s =>
    let '(err, d) := Commit (st_db s) in
    let s' := mkSt (st_repo s) d (st_cu s) in
    match err with
    | Some e => (inl e, s')
    | None => (inr tt, s')
    end.

(** ** [createBranch] (adopt) *)

(** Lines 112-125: the parent defaults to the checked-out branch (the only
    step that can fail), the remote's [HEAD] stands for the default branch,
    and a leading remote name is dropped. *)
Definition resolveParent (repo : Repo) (defaultBranch parentBranchName : string)
    : option string :=
  match
    (if bool_decide (parentBranchName = EmptyString)
     then CurrentBranchName repo
     else Some parentBranchName)
  with
  | None => None
  | Some parentBranchName =>
      let remoteName := GetRemoteName repo in
      let parentBranchName :=
        if bool_decide (parentBranchName = remoteName +:+ "/HEAD")
        then defaultBranch else parentBranchName in
      Some (strings.TrimPrefix parentBranchName (remoteName +:+ "/"))
  end.

(** Lines 185-200: the cleanup action registered once the branch exists. *)
Definition undoBranch (branchName parentBranchName : string) : Action :=
  fun '(r, d) =>
    let '(_, r1) := CheckoutBranch r parentBranchName false EmptyString in
    let '(_, r2) := BranchDelete r1 branchName in
    (r2, d).

(** Lines 112-215, the part of [createBranch] under [defer cu.Cleanup()]. *)
Definition createBranch_body (defaultBranch branchName parentBranchName : string)
    : M unit :=
  parentBranchName <-
    wrapIf (query OpCurrentBranchName
              (fun r => resolveParent r defaultBranch parentBranchName))
           "failed to get current branch name" [] ;;
  remoteName <- (fun s => (inr (GetRemoteName (st_repo s)), s)) ;;
  isBranchFromTrunk <-
    wrapIf (query OpIsTrunkBranch (fun r => IsTrunkBranch r parentBranchName))
           "failed to determine if branch is a trunk" [] ;;
  start <-
    (if isBranchFromTrunk : bool
     then ret (remoteName +:+ "/" +:+ defaultBranch, EmptyString)
     else
       parentHead <-
         wrapIf (query OpRevParse (fun r => RevParse r parentBranchName))
                "failed to determine head commit of branch %q" [EmptyString] ;;
       exist <- readTx (fun d => snd (Tx_Branch d parentBranchName)) ;;
       if exist : bool then ret (parentBranchName, parentHead)
       else fail errParentNotAdopted) ;;
  let '(checkoutStartingPoint, parentHead) := start in
  startPointCommitHash <-
    wrapIf (query OpRevParse (fun r => RevParse r checkoutStartingPoint))
           "failed to determine commit hash of starting point" [] ;;
  wrapIf (perform OpCheckoutBranch
            (fun r => CheckoutBranch r branchName true startPointCommitHash))
         "checkout error" [] ;;;
  cleanup.Add (undoBranch branchName parentBranchName) ;;;
  writeTx (SetBranch
             (mkBranch branchName
                (mkBranchState parentBranchName isBranchFromTrunk parentHead)
                None)) ;;;
  cleanup.Cancel ;;;
  commitTx.

Definition createBranch (repo : Repo) (db : DB)
    (branchName parentBranchName : string) : option error * Repo * DB :=
  match DefaultBranch repo with
  | None =>
      (Some (Wrap (GitError OpDefaultBranch)
                  "failed to determine repository default branch" []),
       repo, db)
  | Some defaultBranch =>
      deferred (cleanup.New abortTx)
               (createBranch_body defaultBranch branchName parentBranchName)
               repo (WriteTx db)
  end.

(** ** [branchMove] (rename) *)

(** Lines 229-238: [OLD:NEW] names both branches, a lone [NEW] renames the
    branch that is checked out. *)
Definition moveNames (repo : Repo) (newBranch : string)
    : option (string * string) :=
  if strings.ContainsRune newBranch colon then
    let '(oldBranch, newBranch, _) := strings.Cut newBranch colon in
    Some (oldBranch, newBranch)
  else
    match CurrentBranchName repo with
    | Some oldBranch => Some (oldBranch, newBranch)
    | None => None
    end.

(** Lines 251-261: the record of the old branch, or for a branch without
    one the zero record with the default branch as trunk parent. *)
Definition currentMetaOf (oldBranch : string) : M Branch :=
  found <- readTx (fun d => Tx_Branch d oldBranch) ;;
  let '(currentMeta, ok) := found in
  if ok : bool then ret currentMeta
  else
    defaultBranch <-
      wrapIf (query OpDefaultBranch DefaultBranch)
             "failed to determine repository default branch" [] ;;
    ret (set_Parent (mkBranchState defaultBranch true EmptyString) currentMeta).

(** Lines 285-290: every child of the old branch is stored again with the
    new parent name. *)
Definition moveChildren (newBranch : string) (children : list Branch) (d : DB)
    : DB :=
  foldl (fun d child => SetBranch (set_Parent_Name newBranch child) d)
        d children.

(** Lines 247-316, the part of [branchMove] under [defer cu.Cleanup()].
    The messages written to standard error are left out. *)
Definition branchMove_body (oldBranch newBranch : string) (force : bool)
    : M unit :=
  if bool_decide (oldBranch = newBranch)
  then fail (New "cannot rename branch to itself")
  else
    currentMeta <- currentMetaOf oldBranch ;;
    (if negb force
     then match Branch_PullRequest currentMeta with
          | Some _ => fail (ErrExitSilently 127)
          | None => ret tt
          end
     else ret tt) ;;;
    let currentMeta := set_PullRequest None currentMeta in
    let currentMeta := set_Name newBranch currentMeta in
    writeTx (SetBranch currentMeta) ;;;
    children <- readTx (fun d => Children d oldBranch) ;;
    writeTx (moveChildren newBranch children) ;;;
    writeTx (DeleteBranch oldBranch) ;;;
    ok <- query OpDoesBranchExist (fun r => DoesBranchExist r oldBranch) ;;
    (if ok : bool
     then wrapIf (perform OpRun (fun r => Run r ["branch"; "-m"; newBranch]))
                 "failed to rename Git branch" []
     else ret tt) ;;;
    cleanup.Cancel ;;;
    commitTx.

Definition branchMove (repo : Repo) (db : DB) (newBranch : string)
    (force : bool) : option error * Repo * DB :=
  if bool_decide (1 < strings.Count newBranch colon) then
    (Some (New "the branch name should be NEW_BRANCH or OLD_BRANCH:NEW_BRANCH"),
     repo, db)
  else
    match moveNames repo newBranch with
    | None => (Some (GitError OpCurrentBranchName), repo, db)
    | Some (oldBranch, newBranch) =>
        deferred (cleanup.New abortTx)
                 (branchMove_body oldBranch newBranch force)
                 repo (WriteTx db)
    end.

(** ** The [branch] command (lines 18-90) *)

(** The flags of the command, [branchFlags]. *)
Record branchFlags : Type := mkBranchFlags {
  Parent : string;
  Rename : bool;
  Force : bool
}.

(** The defaults that [init] registers: no parent, no rename, no force. *)
Definition branchFlags_init : branchFlags :=
  mkBranchFlags EmptyString false false.

(** How a run of the command ends: with the usage text, with the error of
    [getRepo] or of [getDB] (both live in other files of the package and
    are taken as given), or with what [branchMove] or [createBranch]
    returned. *)
Inductive CmdResult : Type :=
| CmdUsage
| CmdNoRepo
| CmdNoDB
| CmdRan (result : option error * Repo * DB).

(** [branchCmd.RunE] (lines 43-70). The command line carries at most two
    arguments ([cobra.RangeArgs(0, 2)]); the second one, when there are
    exactly two, is written into [branchFlags.Parent]. The flags are handed
    back with the result. *)
Definition RunE (getRepo : option Repo) (getDB : Repo -> option DB)
    (flags : branchFlags) (args : list string) : CmdResult * branchFlags :=
  match args with
  | [] => (CmdUsage, flags)
  | branchName :: rest =>
      match getRepo with
      | None => (CmdNoRepo, flags)
      | Some repo =>
          match getDB repo with
          | None => (CmdNoDB, flags)
          | Some db =>
              if Rename flags
              then (CmdRan (branchMove repo db branchName (Force flags)), flags)
              else
                let flags :=
                  match rest with
                  | [parent] => mkBranchFlags parent (Rename flags) (Force flags)
                  | _ => flags
                  end in
                (CmdRan (createBranch repo db branchName (Parent flags)), flags)
          end
      end
  end.

(** * Vocabulary of the properties *)

(** ** The staged writes of a rename, as a map *)

(** In a store [keyed] by branch name every record sits under its own name:
    this is what [SetBranch] establishes for each record it writes. *)
Definition keyed (m : gmap string Branch) : Prop :=
  ∀ k b, m !! k = Some b → Branch_Name b = k.

(** [meta.Children] on the transaction's map. *)
Definition childrenOf (m : gmap string Branch) (name : string) : list Branch :=
  filter (fun b => parentName b = name) (map_to_list m).*2.

(** The children loop of lines 287-290 on the transaction's map. *)
Definition restore (newBranch : string) (m : gmap string Branch)
    (children : list Branch) : gmap string Branch :=
  foldl (fun m child =>
           <[Branch_Name (set_Parent_Name newBranch child) :=
               set_Parent_Name newBranch child]> m)
        m children.

(** The three staged writes of lines 283-291 on the transaction's map:
    [currentMeta] goes under the new name, the children are stored again
    with the new parent name, the old name is deleted. *)
Definition stagedMove (m : gmap string Branch) (oldBranch newBranch : string)
    (currentMeta : Branch) : gmap string Branch :=
  let m1 := <[Branch_Name currentMeta := currentMeta]> m in
  delete oldBranch (restore newBranch m1 (childrenOf m1 oldBranch)).

(** What [currentMetaOf] yields, read off the committed records. *)
Definition metaOrDefault (repo : Repo) (m : gmap string Branch)
    (oldBranch : string) : option Branch :=
  match m !! oldBranch with
  | Some b => Some b
  | None =>
      match DefaultBranch repo with
      | Some d => Some (set_Parent (mkBranchState d true EmptyString) Branch_zero)
      | None => None
      end
  end.

(** The record [branchMove] makes up for a branch without one. *)
Definition defaultMeta (d : string) : Branch :=
  set_Parent (mkBranchState d true EmptyString) Branch_zero.

(** A child record once its parent has been renamed. *)
Definition reparent (oldBranch newBranch : string) (b : Branch) : Branch :=
  if bool_decide (parentName b = oldBranch)
  then set_Parent_Name newBranch b else b.

(** Names as they read after a rename of [old] to [new]. *)
Definition renamed (old new name : string) : string :=
  if decide (name = old) then new else name.

(** ** Outcomes *)

(** The database once the deferred [tx.Abort()] has run. *)
Definition aborted (d : DB) : DB :=
  mkDB (branches d) (commitFails d) TxAborted.

(** Past the guard: the writes are staged, then Git is asked to rename, then
    the transaction is committed. *)
Definition moveOutcome (repo : Repo) (db : DB) (old new : string)
    (cm : Branch) : option error * Repo * DB :=
  let staged :=
    stagedMove (branches db) old new (set_Name new (set_PullRequest None cm)) in
  match DoesBranchExist repo old with
  | None => (Some (GitError OpDoesBranchExist), repo, aborted db)
  | Some ok =>
      let '(renamed, repo1) :=
        if ok : bool then Run repo ["branch"; "-m"; new] else (true, repo) in
      if renamed : bool then
        if commitFails db
        then (Some CommitError, repo1,
              mkDB (branches db) (commitFails db) (TxOpen staged))
        else (None, repo1, mkDB staged (commitFails db) TxCommitted)
      else (Some (Wrap (GitError OpRun) "failed to rename Git branch" []),
            repo1, aborted db)
  end.

(** From the resolution of the starting point on (lines 165-215). *)
Definition adoptOutcome (repo : Repo) (db : DB) (branchName parent : string)
    (isTrunk : bool) (head start : string) : option error * Repo * DB :=
  match RevParse repo start with
  | None =>
      (Some (Wrap (GitError OpRevParse)
               "failed to determine commit hash of starting point" []),
       repo, aborted db)
  | Some commit =>
      let '(ok, repo1) := CheckoutBranch repo branchName true commit in
      let record :=
        mkBranch branchName (mkBranchState parent isTrunk head) None in
      if ok : bool then
        if commitFails db
        then (Some CommitError, repo1,
              mkDB (branches db) (commitFails db)
                   (TxOpen (<[branchName := record]> (branches db))))
        else (None, repo1,
              mkDB (<[branchName := record]> (branches db))
                   (commitFails db) TxCommitted)
      else (Some (Wrap (GitError OpCheckoutBranch) "checkout error" []),
            repo1, aborted db)
  end.

(** ** The parent graph *)

(** Following [parent.name] from the record of [name] for at most [hops]
    steps: the walk ends well when it meets a parent that is a trunk branch
    of the repository, and badly when it runs into a name without a record
    or out of steps. *)
Fixpoint reachesTrunk (repo : Repo) (m : gmap string Branch) (hops : nat)
    (name : string) : bool :=
  match hops with
  | 0 => false
  | S hops' =>
      match m !! name with
      | None => false
      | Some b =>
          isTrunkName repo (parentName b)
          || reachesTrunk repo m hops' (parentName b)
      end
  end.

(** From every record the walk ends at a trunk branch within as many hops
    as there are records. *)
Definition endsAtTrunk (repo : Repo) (m : gmap string Branch) : Prop :=
  ∀ k b, m !! k = Some b →
    ∃ hops, (hops ≤ size m)%nat ∧ reachesTrunk repo m hops k = true.

(** The ancestors of the record of [k]: its parent name, and the ancestors
    of the record under that name, if there is one. Trunk or not, every
    record on the way is followed. *)
Inductive ancestor (m : gmap string Branch) : string → string → Prop :=
| ancestor_parent k b :
    m !! k = Some b → ancestor m k (parentName b)
| ancestor_further k b a :
    m !! k = Some b → ancestor m (parentName b) a → ancestor m k a.

(** No record is its own ancestor. *)
Definition acyclic (m : gmap string Branch) : Prop :=
  ∀ k, ¬ ancestor m k k.

(** The trunk branches are roots: no record is stored under their names,
    so a walk that has met a trunk branch has nothing left to follow. *)
Definition trunkIsRoot (repo : Repo) (m : gmap string Branch) : Prop :=
  ∀ k, isTrunkName repo k = true → m !! k = None.

(** The store is a forest rooted in trunk: from every record the walk ends
    at a trunk branch within as many hops as there are records, and no
    record is its own ancestor. *)
Definition forest (repo : Repo) (m : gmap string Branch) : Prop :=
  endsAtTrunk repo m ∧ acyclic m.

(** The same walk as a relation. *)
Inductive rooted (repo : Repo) (m : gmap string Branch) : string → Prop :=
| rooted_trunk k b :
    m !! k = Some b → isTrunkName repo (parentName b) = true → rooted repo m k
| rooted_step k b :
    m !! k = Some b → rooted repo m (parentName b) → rooted repo m k.

(** The walk with its exact number of hops. *)
Inductive hopsToTrunk (repo : Repo) (m : gmap string Branch)
    : nat → string → Prop :=
| hops_one k b :
    m !! k = Some b → isTrunkName repo (parentName b) = true →
    hopsToTrunk repo m 1 k
| hops_more n k b :
    m !! k = Some b → isTrunkName repo (parentName b) = false →
    hopsToTrunk repo m n (parentName b) →
    hopsToTrunk repo m (S n) k.

(** The walk only depends on which names are trunk branches. *)
Definition sameTrunks (r r' : Repo) : Prop :=
  defaultBranch r' = defaultBranch r
  ∧ additionalTrunkBranches r' = additionalTrunkBranches r.

(** The states reached from an empty store by successful adoptions and
    renames. With [strict] set, every step is one that uses a name that is
    free and is not the name of a trunk branch: an adoption of a branch
    that is not a trunk branch and has no record yet, a rename of a branch
    that is not a trunk branch to a name that is not a trunk branch's and
    has no record yet. *)
Inductive reachable (strict : bool) : Repo → DB → Prop :=
| reach_empty repo db :
    branches db = ∅ → reachable strict repo db
| reach_adopt repo db branchName parent repo' db' :
    reachable strict repo db →
    (strict = true →
     isTrunkName repo branchName = false
     ∧ branches db !! branchName = None) →
    createBranch repo db branchName parent = (None, repo', db') →
    reachable strict repo' db'
| reach_rename repo db arg force repo' db' :
    reachable strict repo db →
    (strict = true →
     ∃ old new, moveNames repo arg = Some (old, new)
                ∧ isTrunkName repo old = false
                ∧ isTrunkName repo new = false
                ∧ branches db !! new = None) →
    branchMove repo db arg force = (None, repo', db') →
    reachable strict repo' db'.

(** A record with a trunk parent has no head commit. *)
Definition trunkHasNoHead (b : Branch) : Prop :=
  BranchState_Trunk (Branch_Parent b) = true →
  BranchState_Head (Branch_Parent b) = EmptyString.

(** ** Claims of the specification that the code does not meet as worded *)

(** The propagation property as the specification words it: after a
    successful rename of [old] to [new], every record whose parent name was
    [old] has parent name [new], and no record has parent name [old]. *)
Definition propagates (repo : Repo) (db : DB) (arg : string) (force : bool)
    : Prop :=
  ∀ old new repo' db',
    moveNames repo arg = Some (old, new) →
    branchMove repo db arg force = (None, repo', db') →
    (∀ k c, branches db !! k = Some c → parentName c = old →
            ∃ c', branches db' !! k = Some c' ∧ parentName c' = new)
    ∧ (∀ k c', branches db' !! k = Some c' → parentName c' ≠ old).

(** The guard as the specification words it: a resolved parent that is not
    a trunk branch and has no record makes the adoption fail with
    [errParentNotAdopted], with the repository and the committed records
    unchanged. *)
Definition refuses_untracked_parent (repo : Repo) (db : DB)
    (branchName parent : string) : Prop :=
  ∀ d P,
    DefaultBranch repo = Some d →
    resolveParent repo d parent = Some P →
    IsTrunkBranch repo P = Some false →
    branches db !! P = None →
    ∃ db',
      createBranch repo db branchName parent
      = (Some errParentNotAdopted, repo, db')
      ∧ branches db' = branches db.

(** The frame property of a rename as the specification's claim words it:
    after a successful rename of a branch that has a record, the record
    under the new name has the parent field (name, trunk flag, head commit)
    of the old record. *)
Definition keeps_parent (repo : Repo) (db : DB) (arg : string) (force : bool)
    : Prop :=
  ∀ old new b repo' db',
    moveNames repo arg = Some (old, new) →
    branches db !! old = Some b →
    branchMove repo db arg force = (None, repo', db') →
    ∃ b', branches db' !! new = Some b' ∧ Branch_Parent b' = Branch_Parent b.

(** ** Repositories and databases used as examples *)

(** A repository with [main] checked out, behind its remote by one commit. *)
Definition repo_main : Repo :=
  mkRepo (Some "main") [] "origin" (Some "main")
         {[ "main" := "c0" ]} {[ "origin/main" := "c1" ]} [] [].

(** A database without records. *)
Definition db_empty : DB := mkDB ∅ false TxNone.

(** Pull request 42, and [feature], on trunk, carrying it. *)
Definition pr42 : PullRequest := mkPullRequest 42.

Definition db_feature_pr : DB :=
  mkDB {[ "feature" :=
            mkBranch "feature" (mkBranchState "main" true EmptyString)
                     (Some pr42) ]}
       false TxNone.

(** The stack [feature-1], [feature-2] on trunk, in the database and in Git,
    with [feature-1] checked out. *)
Definition feature1 : Branch :=
  mkBranch "feature-1" (mkBranchState "main" true EmptyString) None.

Definition feature2 : Branch :=
  mkBranch "feature-2" (mkBranchState "feature-1" false "c1") None.

Definition db_stack : DB :=
  mkDB {[ "feature-1" := feature1; "feature-2" := feature2 ]} false TxNone.

Definition repo_stack : Repo :=
  mkRepo (Some "main") [] "origin" (Some "feature-1")
         {[ "main" := "c0"; "feature-1" := "c1"; "feature-2" := "c2" ]}
         {[ "origin/main" := "c0" ]} [] [].

(** Tracked branches [old] (on trunk) and [new] (on [old]); [old] is gone
    from Git, so the rename is a metadata-only one. *)
Definition db_collide : DB :=
  mkDB {[ "old" := mkBranch "old" (mkBranchState "main" true EmptyString) None;
          "new" := mkBranch "new" (mkBranchState "old" false "c1") None ]}
       false TxNone.

(** Branches [a] and [b] exist in Git and [b] is checked out; [a] is
    tracked. *)
Definition repo_on_b : Repo :=
  mkRepo (Some "main") [] "origin" (Some "b")
         {[ "main" := "c0"; "a" := "c1"; "b" := "c2" ]}
         {[ "origin/main" := "c0" ]} [] [].

Definition db_a : DB :=
  mkDB {[ "a" := mkBranch "a" (mkBranchState "main" true EmptyString) None ]}
       false TxNone.

(** [feature-1] exists in Git but was never adopted. *)
Definition repo_untracked : Repo :=
  mkRepo (Some "main") [] "origin" (Some "feature-1")
         {[ "main" := "c0"; "feature-1" := "c1" ]}
         {[ "origin/main" := "c0" ]} [] [].

(** The local [main] is behind [origin/main]. *)
Definition repo_stale : Repo :=
  mkRepo (Some "main") [] "origin" (Some "main")
         {[ "main" := "c0" ]} {[ "origin/main" := "c9" ]} [] [].

(** Running the operations one after the other. *)
Definition adopt (w : Repo * DB) (branchName parent : string) : Repo * DB :=
  let '(_, repo', db') := createBranch w.1 w.2 branchName parent in
  (repo', db').

Definition rename (w : Repo * DB) (arg : string) (force : bool) : Repo * DB :=
  let '(_, repo', db') := branchMove w.1 w.2 arg force in
  (repo', db').

(** Adopt [a] on trunk and [b] on [a]. *)
Definition world_ab : Repo * DB :=
  adopt (adopt (repo_main, db_empty) "a" EmptyString) "b" EmptyString.

(** Then rename [a] to [x] while [b] is checked out (Git renames [b]), and
    rename [b], now missing from Git, to [x]. *)
Definition world_cycle : Repo * DB :=
  rename (rename world_ab "a:x" false) "b:x" false.

(** Or rename the checked-out [b] to [c]. *)
Definition world_abc : Repo * DB := rename world_ab "c" false.

(** Rename the checked-out trunk branch [main], which has no record, to
    [foo]: the record made up for it is stored as its own parent. *)
Definition world_foo : Repo * DB := rename (repo_main, db_empty) "foo" false.

(** * Properties *)

(** ** The string helpers on examples *)

Example Count_two : strings.Count "a:b:c" colon = 2.
Proof. reflexivity. Qed.

Example Cut_first : strings.Cut "old:new" colon = ("old", "new", true).
Proof. reflexivity. Qed.

Example TrimPrefix_remote : strings.TrimPrefix "origin/main" "origin/" = "main".
Proof. reflexivity. Qed.

(** ** The staged writes of a rename, as a map *)

Lemma keyed_empty : keyed ∅.
Proof. intros k b H. by rewrite lookup_empty in H. Qed.

Lemma keyed_insert m b : keyed m → keyed (<[Branch_Name b := b]> m).
Proof.
  intros Hm k b' H.
  destruct (decide (Branch_Name b = k)) as [<-|Hne].
  - rewrite lookup_insert_eq in H. by inversion H.
  - rewrite lookup_insert_ne in H by done. by apply Hm.
Qed.

Lemma keyed_delete m k : keyed m → keyed (delete k m).
Proof.
  intros Hm k' b H.
  apply lookup_delete_Some in H as [_ H]. by apply Hm.
Qed.

Lemma restore_other new l : ∀ m k,
  (∀ c, c ∈ l → Branch_Name c ≠ k) →
  restore new m l !! k = m !! k.
Proof.
  induction l as [|a l IH]; intros m k Hk; [done|].
  cbn. unfold restore in IH. rewrite IH.
  - apply lookup_insert_ne. cbn. apply Hk. left.
  - intros c Hc. apply Hk. by right.
Qed.

Lemma restore_child new l c0 : ∀ m,
  (∀ c, c ∈ l → Branch_Name c = Branch_Name c0 → c = c0) →
  c0 ∈ l ∨ m !! Branch_Name c0 = Some (set_Parent_Name new c0) →
  restore new m l !! Branch_Name c0 = Some (set_Parent_Name new c0).
Proof.
  induction l as [|a l IH]; intros m Huniq Hin.
  - destruct Hin as [Hin|Hin]; [by apply elem_of_nil in Hin | done].
  - cbn. unfold restore in IH. apply IH.
    + intros c Hc. apply Huniq. by right.
    + destruct (decide (Branch_Name a = Branch_Name c0)) as [Heq|Hne].
      * right. assert (a = c0) as -> by (apply Huniq; [left | done]).
        cbn. apply lookup_insert_eq.
      * destruct Hin as [Hin|Hin].
        -- apply elem_of_cons in Hin as [->|Hin]; [done | by left].
        -- right. rewrite lookup_insert_ne by done. done.
Qed.

Lemma elem_of_childrenOf m name c :
  c ∈ childrenOf m name ↔ (∃ k, m !! k = Some c) ∧ parentName c = name.
Proof.
  unfold childrenOf. rewrite list_elem_of_filter, list_elem_of_fmap.
  split.
  - intros [Hp [[k c'] [-> Hin]]]. apply elem_of_map_to_list in Hin. eauto.
  - intros [[k Hk] Hp]. split; [done|].
    exists (k, c). split; [done|]. by apply elem_of_map_to_list.
Qed.

(** The children loop, record by record: under every name the loop leaves
    the record that was there, with its parent renamed if it was a child.
    This holds for the children in any order (and with repetitions), so the
    order in which [tx.AllBranches()] hands out the records of the map does
    not matter. *)
Lemma restore_children m old new l k :
  keyed m →
  (∀ c, c ∈ l ↔ c ∈ childrenOf m old) →
  restore new m l !! k = reparent old new <$> m !! k.
Proof.
  intros Hk Hl.
  assert (∀ c, c ∈ l → Branch_Name c = k → m !! k = Some c ∧ parentName c = old)
    as Hin.
  { intros c Hc Hname. apply Hl, elem_of_childrenOf in Hc as [[k' Hc] Hp].
    pose proof (Hk _ _ Hc) as Hn. split; [congruence | done]. }
  destruct (m !! k) as [b|] eqn:Hb; cbn.
  - unfold reparent. case_bool_decide as Hp.
    + pose proof (Hk _ _ Hb) as Hname. subst k.
      apply restore_child.
      * intros c Hc Heq. destruct (Hin c Hc Heq) as [Hc' _]. congruence.
      * left. apply Hl, elem_of_childrenOf. eauto.
    + rewrite restore_other; [done|].
      intros c Hc Heq. destruct (Hin c Hc Heq) as [Hc' Hpc]. congruence.
  - rewrite restore_other; [done|].
    intros c Hc Heq. destruct (Hin c Hc Heq) as [Hc' _]. congruence.
Qed.

Lemma restore_childrenOf m old new k :
  keyed m →
  restore new m (childrenOf m old) !! k = reparent old new <$> m !! k.
Proof. intros Hk. by apply restore_children. Qed.

Lemma restore_any_order m old new l :
  keyed m →
  l ≡ₚ childrenOf m old →
  restore new m l = restore new m (childrenOf m old).
Proof.
  intros Hk Hperm. apply map_eq. intros k.
  rewrite restore_childrenOf by done. apply restore_children; [done|].
  intros c. by rewrite Hperm.
Qed.

(** The committed records after a rename, record by record. *)
Lemma stagedMove_lookup m old new cm k :
  keyed m →
  stagedMove m old new cm !! k =
    if decide (k = old) then None
    else reparent old new <$> (<[Branch_Name cm := cm]> m !! k).
Proof.
  intros Hk. unfold stagedMove. cbn zeta.
  destruct (decide (k = old)) as [->|Hne].
  - apply lookup_delete_eq.
  - rewrite lookup_delete_ne by done.
    apply restore_childrenOf. by apply keyed_insert.
Qed.

Lemma stagedMove_keyed m old new cm : keyed m → keyed (stagedMove m old new cm).
Proof.
  intros Hk k b. rewrite stagedMove_lookup by done.
  case_decide; [done|].
  intros Hl. apply fmap_Some in Hl as (b0 & Hb0 & ->).
  apply (keyed_insert _ cm Hk) in Hb0.
  unfold reparent. by case_bool_decide.
Qed.

(** ** The outcomes of [branchMove], path by path *)

Lemma moveChildren_open new l m c st :
  moveChildren new l (mkDB m c (TxOpen st))
  = mkDB m c (TxOpen (restore new st l)).
Proof.
  revert st. induction l as [|a l IH]; intros st; [done|].
  cbn. apply IH.
Qed.

Ltac run_step :=
  unfold bind, ret, fail, readTx, writeTx, query, perform, wrapIf, commitTx,
    cleanup.New, cleanup.Add, cleanup.Cancel, cleanup.Cleanup, abortTx,
    Tx_Branch, SetBranch, DeleteBranch, stage, Children, AllBranches,
    Commit, Abort, aborted, WriteTx, txView;
  cbn [st_repo st_db st_cu tx branches commitFails rev app foldl fst snd negb
       Branch_Name set_Name set_PullRequest].

Lemma branchMove_malformed repo db arg force :
  1 < strings.Count arg colon →
  branchMove repo db arg force
  = (Some (New "the branch name should be NEW_BRANCH or OLD_BRANCH:NEW_BRANCH"),
     repo, db).
Proof. intros H. unfold branchMove. by rewrite bool_decide_eq_true_2. Qed.

Lemma branchMove_no_current repo db arg force :
  ¬ 1 < strings.Count arg colon →
  moveNames repo arg = None →
  branchMove repo db arg force = (Some (GitError OpCurrentBranchName), repo, db).
Proof.
  intros H Hn. unfold branchMove.
  rewrite bool_decide_eq_false_2 by done. by rewrite Hn.
Qed.

Lemma branchMove_self repo db arg force name :
  ¬ 1 < strings.Count arg colon →
  moveNames repo arg = Some (name, name) →
  branchMove repo db arg force
  = (Some (New "cannot rename branch to itself"), repo, aborted db).
Proof.
  intros H Hn. unfold branchMove.
  rewrite bool_decide_eq_false_2 by done. rewrite Hn.
  unfold deferred, branchMove_body.
  rewrite bool_decide_eq_true_2 by done. reflexivity.
Qed.

Lemma currentMetaOf_run repo db old cu :
  currentMetaOf old (mkSt repo (WriteTx db) cu)
  = (match metaOrDefault repo (branches db) old with
     | Some cm => inr cm
     | None => inl (Wrap (GitError OpDefaultBranch)
                      "failed to determine repository default branch" [])
     end,
     mkSt repo (WriteTx db) cu).
Proof.
  unfold currentMetaOf, metaOrDefault. run_step.
  destruct (branches db !! old) as [b|]; [done|].
  run_step. by destruct (DefaultBranch repo).
Qed.

Lemma branchMove_no_default repo db arg force old new :
  ¬ 1 < strings.Count arg colon →
  moveNames repo arg = Some (old, new) →
  old ≠ new →
  metaOrDefault repo (branches db) old = None →
  branchMove repo db arg force
  = (Some (Wrap (GitError OpDefaultBranch)
             "failed to determine repository default branch" []),
     repo, aborted db).
Proof.
  intros H Hn Hne Hm. unfold branchMove.
  rewrite bool_decide_eq_false_2 by done. rewrite Hn.
  unfold deferred, branchMove_body.
  rewrite bool_decide_eq_false_2 by done.
  unfold bind at 1. rewrite currentMetaOf_run, Hm. reflexivity.
Qed.

Lemma branchMove_guard repo db arg old new cm pr :
  ¬ 1 < strings.Count arg colon →
  moveNames repo arg = Some (old, new) →
  old ≠ new →
  metaOrDefault repo (branches db) old = Some cm →
  Branch_PullRequest cm = Some pr →
  branchMove repo db arg false
  = (Some (ErrExitSilently 127), repo, aborted db).
Proof.
  intros H Hn Hne Hm Hpr. unfold branchMove.
  rewrite bool_decide_eq_false_2 by done. rewrite Hn.
  unfold deferred, branchMove_body.
  rewrite bool_decide_eq_false_2 by done.
  unfold bind at 1. rewrite currentMetaOf_run, Hm.
  run_step. rewrite Hpr. reflexivity.
Qed.

Lemma branchMove_proceeds repo db arg force old new cm :
  ¬ 1 < strings.Count arg colon →
  moveNames repo arg = Some (old, new) →
  old ≠ new →
  metaOrDefault repo (branches db) old = Some cm →
  (force = false → Branch_PullRequest cm = None) →
  branchMove repo db arg force = moveOutcome repo db old new cm.
Proof.
  intros H Hn Hne Hm Hpr. unfold branchMove.
  rewrite bool_decide_eq_false_2 by done. rewrite Hn.
  unfold deferred, branchMove_body, moveOutcome.
  rewrite bool_decide_eq_false_2 by done.
  unfold bind at 1. rewrite currentMetaOf_run, Hm.
  assert ((if negb force
           then match Branch_PullRequest cm with
                | Some _ => fail (ErrExitSilently 127)
                | None => ret tt
                end
           else ret tt) = ret tt) as ->.
  { destruct force; [done|]. cbn. by rewrite Hpr. }
  run_step. rewrite moveChildren_open. run_step.
  fold (childrenOf (<[new := set_Name new (set_PullRequest None cm)]> (branches db)) old).
  destruct (DoesBranchExist repo old) as [[|]|] eqn:He; run_step.
  - destruct (Run repo ["branch"; "-m"; new]) as [[|] repo1] eqn:Hr; run_step.
    + destruct (commitFails db) eqn:Hc; run_step; reflexivity.
    + reflexivity.
  - destruct (commitFails db) eqn:Hc; run_step; reflexivity.
  - reflexivity.
Qed.

(** A rename that reports no error went all the way through [moveOutcome]. *)
Lemma branchMove_success repo db arg force r' d' :
  branchMove repo db arg force = (None, r', d') →
  ∃ old new cm,
    moveNames repo arg = Some (old, new) ∧ old ≠ new ∧
    metaOrDefault repo (branches db) old = Some cm ∧
    (force = false → Branch_PullRequest cm = None) ∧
    moveOutcome repo db old new cm = (None, r', d').
Proof.
  intros Hrun.
  destruct (decide (1 < strings.Count arg colon)) as [Hc|Hc].
  { rewrite branchMove_malformed in Hrun by done. discriminate. }
  destruct (moveNames repo arg) as [[old new]|] eqn:Hn.
  2: { rewrite branchMove_no_current in Hrun by done. discriminate. }
  destruct (decide (old = new)) as [->|Hne].
  { rewrite (branchMove_self _ _ _ _ new) in Hrun by done. discriminate. }
  destruct (metaOrDefault repo (branches db) old) as [cm|] eqn:Hm.
  2: { rewrite (branchMove_no_default _ _ _ _ old new) in Hrun by done.
       discriminate. }
  exists old, new, cm. repeat split; try done.
  - intros ->. destruct (Branch_PullRequest cm) as [pr|] eqn:Hpr; [|done].
    rewrite (branchMove_guard _ _ _ old new cm pr) in Hrun by done.
    discriminate.
  - rewrite <- Hrun. symmetry. apply branchMove_proceeds; try done.
    intros ->. destruct (Branch_PullRequest cm) as [pr|] eqn:Hpr; [|done].
    rewrite (branchMove_guard _ _ _ old new cm pr) in Hrun by done.
    discriminate.
Qed.

Lemma moveOutcome_success repo db old new cm r' d' :
  moveOutcome repo db old new cm = (None, r', d') →
  d' = mkDB (stagedMove (branches db) old new
               (set_Name new (set_PullRequest None cm)))
            false TxCommitted
  ∧ commitFails db = false
  ∧ ((DoesBranchExist repo old = Some true
      ∧ Run repo ["branch"; "-m"; new] = (true, r'))
     ∨ (DoesBranchExist repo old = Some false ∧ r' = repo)).
Proof.
  unfold moveOutcome.
  destruct (DoesBranchExist repo old) as [[|]|]; [| |discriminate].
  - destruct (Run repo ["branch"; "-m"; new]) as [[|] r1]; [|discriminate].
    destruct (commitFails db) eqn:Hc; [discriminate|].
    intros [= <- <-]. eauto.
  - destruct (commitFails db) eqn:Hc; [discriminate|].
    intros [= <- <-]. eauto.
Qed.

(** Whatever error a rename reports, the committed records are the ones it
    started from. *)
Lemma branchMove_failure repo db arg force e r' d' :
  branchMove repo db arg force = (Some e, r', d') →
  branches d' = branches db.
Proof.
  intros Hrun.
  destruct (decide (1 < strings.Count arg colon)) as [Hc|Hc].
  { rewrite branchMove_malformed in Hrun by done. by inversion Hrun. }
  destruct (moveNames repo arg) as [[old new]|] eqn:Hn.
  2: { rewrite branchMove_no_current in Hrun by done. by inversion Hrun. }
  destruct (decide (old = new)) as [->|Hne].
  { rewrite (branchMove_self _ _ _ _ new) in Hrun by done. by inversion Hrun. }
  destruct (metaOrDefault repo (branches db) old) as [cm|] eqn:Hm.
  2: { rewrite (branchMove_no_default _ _ _ _ old new) in Hrun by done.
       by inversion Hrun. }
  destruct force, (Branch_PullRequest cm) as [pr|] eqn:Hpr.
  4: { rewrite (branchMove_proceeds _ _ _ _ old new cm) in Hrun by done.
       revert Hrun. unfold moveOutcome.
       repeat (case_match; try discriminate); by intros [= <- <- <-]. }
  3: { rewrite (branchMove_guard _ _ _ old new cm pr) in Hrun by done.
       by inversion Hrun. }
  all: rewrite (branchMove_proceeds _ _ _ _ old new cm) in Hrun by done;
       revert Hrun; unfold moveOutcome;
       repeat (case_match; try discriminate); by intros [= <- <- <-].
Qed.

(** ** The outcomes of [createBranch], path by path *)

Lemma createBranch_no_default repo db name parent :
  DefaultBranch repo = None →
  createBranch repo db name parent
  = (Some (Wrap (GitError OpDefaultBranch)
             "failed to determine repository default branch" []),
     repo, db).
Proof. intros H. unfold createBranch. by rewrite H. Qed.

Lemma createBranch_no_parent repo db name parent d :
  DefaultBranch repo = Some d →
  resolveParent repo d parent = None →
  createBranch repo db name parent
  = (Some (Wrap (GitError OpCurrentBranchName)
             "failed to get current branch name" []),
     repo, aborted db).
Proof.
  intros Hd Hp. unfold createBranch. rewrite Hd.
  unfold deferred, createBranch_body. run_step. rewrite Hp. reflexivity.
Qed.

Lemma createBranch_trunk_unknown repo db name parent d P :
  DefaultBranch repo = Some d →
  resolveParent repo d parent = Some P →
  IsTrunkBranch repo P = None →
  createBranch repo db name parent
  = (Some (Wrap (GitError OpIsTrunkBranch)
             "failed to determine if branch is a trunk" []),
     repo, aborted db).
Proof.
  intros Hd Hp Ht. unfold createBranch. rewrite Hd.
  unfold deferred, createBranch_body. run_step.
  rewrite Hp. run_step. rewrite Ht. reflexivity.
Qed.

Lemma adopt_tail repo db name P isTrunk head start :
  (let '(res, s) :=
     (startPointCommitHash <-
        wrapIf (query OpRevParse (fun r => RevParse r start))
               "failed to determine commit hash of starting point" [] ;;
      wrapIf (perform OpCheckoutBranch
                (fun r => CheckoutBranch r name true startPointCommitHash))
             "checkout error" [] ;;;
      cleanup.Add (undoBranch name P) ;;;
      writeTx (SetBranch
                 (mkBranch name (mkBranchState P isTrunk head) None)) ;;;
      cleanup.Cancel ;;;
      commitTx) (mkSt repo (WriteTx db) (cleanup.New abortTx)) in
   let '(r', d') := cleanup.Cleanup (st_cu s) (st_repo s, st_db s) in
   (match res with inl e => Some e | inr _ => None end, r', d'))
  = adoptOutcome repo db name P isTrunk head start.
Proof.
  unfold adoptOutcome. run_step.
  destruct (RevParse repo start) as [c|]; [|reflexivity].
  run_step.
  destruct (CheckoutBranch repo name true c) as [[|] r1]; run_step;
    [|reflexivity].
  destruct (commitFails db); reflexivity.
Qed.

Lemma createBranch_trunk repo db name parent d P :
  DefaultBranch repo = Some d →
  resolveParent repo d parent = Some P →
  IsTrunkBranch repo P = Some true →
  createBranch repo db name parent
  = adoptOutcome repo db name P true EmptyString
                 (GetRemoteName repo +:+ "/" +:+ d).
Proof.
  intros Hd Hp Ht. unfold createBranch. rewrite Hd.
  rewrite <- adopt_tail.
  unfold deferred, createBranch_body.
  unfold bind at 1. unfold wrapIf at 1, query at 1. cbn [st_repo]. rewrite Hp.
  unfold bind at 1. cbn [st_repo].
  unfold bind at 1. unfold wrapIf at 1, query at 1. cbn [st_repo]. rewrite Ht.
  unfold bind at 1. unfold ret at 1. reflexivity.
Qed.

Lemma createBranch_no_head repo db name parent d P :
  DefaultBranch repo = Some d →
  resolveParent repo d parent = Some P →
  IsTrunkBranch repo P = Some false →
  RevParse repo P = None →
  createBranch repo db name parent
  = (Some (Wrap (GitError OpRevParse)
             "failed to determine head commit of branch %q" [EmptyString]),
     repo, aborted db).
Proof.
  intros Hd Hp Ht Hr. unfold createBranch. rewrite Hd.
  unfold deferred, createBranch_body. run_step.
  rewrite Hp. run_step. rewrite Ht. run_step. rewrite Hr.
  reflexivity.
Qed.

Lemma createBranch_not_adopted repo db name parent d P head :
  DefaultBranch repo = Some d →
  resolveParent repo d parent = Some P →
  IsTrunkBranch repo P = Some false →
  RevParse repo P = Some head →
  branches db !! P = None →
  createBranch repo db name parent
  = (Some errParentNotAdopted, repo, aborted db).
Proof.
  intros Hd Hp Ht Hr Hb. unfold createBranch. rewrite Hd.
  unfold deferred, createBranch_body. run_step.
  rewrite Hp. run_step. rewrite Ht. run_step. rewrite Hr.
  run_step. rewrite Hb. reflexivity.
Qed.

Lemma createBranch_stacked repo db name parent d P head :
  DefaultBranch repo = Some d →
  resolveParent repo d parent = Some P →
  IsTrunkBranch repo P = Some false →
  RevParse repo P = Some head →
  is_Some (branches db !! P) →
  createBranch repo db name parent
  = adoptOutcome repo db name P false head P.
Proof.
  intros Hd Hp Ht Hr [pb Hb]. unfold createBranch. rewrite Hd.
  rewrite <- adopt_tail.
  unfold deferred, createBranch_body.
  unfold bind at 1. unfold wrapIf at 1, query at 1. cbn [st_repo]. rewrite Hp.
  unfold bind at 1. cbn [st_repo].
  unfold bind at 1. unfold wrapIf at 1, query at 1. cbn [st_repo]. rewrite Ht.
  unfold bind at 1. unfold bind at 1. unfold wrapIf at 1, query at 1.
  cbn [st_repo]. rewrite Hr.
  unfold bind at 1. unfold readTx at 1, Tx_Branch, txView, WriteTx.
  cbn [st_db tx snd]. rewrite Hb. cbn [snd]. unfold ret at 1. reflexivity.
Qed.

(** ** Validation of the rename argument *)

(** C8. A rename argument with more than one [:] separator, and a rename
    whose old and new names are the same, are refused with a validation
    error ([errors.New]/[errors.Errorf]) before anything happens: the
    repository, its journal of mutating calls included, is the one the
    operation started with, and the committed records are unchanged (the
    database is untouched, or its transaction was opened and aborted). *)
Theorem branchMove_validation_before_effects repo db arg force :
  1 < strings.Count arg colon
  ∨ (∃ name, moveNames repo arg = Some (name, name)) →
  ∃ msg db',
    branchMove repo db arg force = (Some (New msg), repo, db')
    ∧ branches db' = branches db
    ∧ (db' = db ∨ db' = aborted db).
Proof.
  intros Hcase.
  destruct (decide (1 < strings.Count arg colon)) as [Hc|Hc].
  - eexists; exists db. rewrite branchMove_malformed by done. eauto.
  - destruct Hcase as [Hc'|[name Hn]]; [done|].
    eexists; exists (aborted db).
    rewrite (branchMove_self _ _ _ _ name) by done.
    eauto.
Qed.

Lemma branchMove_validation_before_effects_witness :
  (∃ msg db',
      branchMove repo_main db_empty "a:b:c" false
      = (Some (New msg), repo_main, db')
      ∧ branches db' = branches db_empty
      ∧ (db' = db_empty ∨ db' = aborted db_empty))
  ∧ (∃ msg db',
      branchMove repo_main db_empty "main" true
      = (Some (New msg), repo_main, db')
      ∧ branches db' = branches db_empty
      ∧ (db' = db_empty ∨ db' = aborted db_empty)).
Proof.
  split.
  - apply branchMove_validation_before_effects. left. vm_compute. lia.
  - apply branchMove_validation_before_effects. right. exists "main".
    reflexivity.
Defined.

(** ** The record stored under the new name *)

Lemma reparent_PullRequest old new b :
  Branch_PullRequest (reparent old new b) = Branch_PullRequest b.
Proof. unfold reparent. by case_bool_decide. Qed.

Lemma reparent_Name old new b :
  Branch_Name (reparent old new b) = Branch_Name b.
Proof. unfold reparent. by case_bool_decide. Qed.

Lemma reparent_parentName old new b :
  parentName (reparent old new b)
  = if bool_decide (parentName b = old) then new else parentName b.
Proof. unfold reparent. by case_bool_decide. Qed.

Lemma reparent_Trunk_Head old new b :
  BranchState_Trunk (Branch_Parent (reparent old new b))
  = BranchState_Trunk (Branch_Parent b)
  ∧ BranchState_Head (Branch_Parent (reparent old new b))
    = BranchState_Head (Branch_Parent b).
Proof. unfold reparent. by case_bool_decide. Qed.

Lemma reparent_not_old old new b :
  old ≠ new → parentName (reparent old new b) ≠ old.
Proof.
  intros Hne. rewrite reparent_parentName. by case_bool_decide.
Qed.

Lemma stagedMove_new m old new cm :
  keyed m → old ≠ new →
  stagedMove m old new (set_Name new cm) !! new
  = Some (reparent old new (set_Name new cm)).
Proof.
  intros Hk Hne. rewrite stagedMove_lookup by done.
  rewrite decide_False by done. cbn [set_Name Branch_Name].
  by rewrite lookup_insert_eq.
Qed.

Lemma metaOrDefault_tracked repo m old b :
  m !! old = Some b → metaOrDefault repo m old = Some b.
Proof. intros H. unfold metaOrDefault. by rewrite H. Qed.

(** ** The review-request guard *)

(** C3. Renaming a branch whose record carries a pull request: without
    [force] the operation returns [ErrExitSilently] with exit code 127, the
    repository is the one it started with and the committed records are
    unchanged (the transaction is aborted); with [force] the same rename
    goes on to the staged writes and the Git rename, never returns that
    signal, and when it succeeds the record stored under the new name has
    no pull request. *)
Theorem branchMove_orphan_guard repo db arg old new b pr :
  ¬ 1 < strings.Count arg colon →
  moveNames repo arg = Some (old, new) →
  old ≠ new →
  keyed (branches db) →
  branches db !! old = Some b →
  Branch_PullRequest b = Some pr →
  (∃ db',
      branchMove repo db arg false = (Some (ErrExitSilently 127), repo, db')
      ∧ branches db' = branches db ∧ tx db' = TxAborted)
  ∧ branchMove repo db arg true = moveOutcome repo db old new b
  ∧ (∀ e repo' db',
        branchMove repo db arg true = (e, repo', db') →
        e ≠ Some (ErrExitSilently 127)
        ∧ (e = None →
           ∃ b', branches db' !! new = Some b'
                 ∧ Branch_PullRequest b' = None)).
Proof.
  intros Hc Hn Hne Hk Hb Hpr.
  pose proof (metaOrDefault_tracked repo _ _ _ Hb) as Hm.
  assert (branchMove repo db arg true = moveOutcome repo db old new b) as Hgo
    by (by apply branchMove_proceeds).
  split; [|split; [done|]].
  - exists (aborted db).
    by rewrite (branchMove_guard _ _ _ old new b pr).
  - intros e repo' db' Hrun. rewrite Hgo in Hrun. split.
    + revert Hrun. unfold moveOutcome.
      repeat (case_match; try discriminate); by intros [= <- <- <-].
    + intros ->. apply moveOutcome_success in Hrun as (-> & _ & _).
      cbn [branches]. rewrite stagedMove_new by done.
      eexists. split; [done|]. by rewrite reparent_PullRequest.
Qed.

Lemma keyed_singleton b : keyed {[ Branch_Name b := b ]}.
Proof.
  intros k b' H. apply lookup_singleton_Some in H as [<- <-]. done.
Qed.

Lemma branchMove_orphan_guard_witness :
  (∃ db',
      branchMove repo_main db_feature_pr "feature:renamed" false
      = (Some (ErrExitSilently 127), repo_main, db')
      ∧ branches db' = branches db_feature_pr ∧ tx db' = TxAborted)
  ∧ branchMove repo_main db_feature_pr "feature:renamed" true
    = moveOutcome repo_main db_feature_pr "feature" "renamed"
        (mkBranch "feature" (mkBranchState "main" true EmptyString) (Some pr42))
  ∧ (∀ e repo' db',
        branchMove repo_main db_feature_pr "feature:renamed" true
        = (e, repo', db') →
        e ≠ Some (ErrExitSilently 127)
        ∧ (e = None →
           ∃ b', branches db' !! "renamed" = Some b'
                 ∧ Branch_PullRequest b' = None)).
Proof.
  apply (branchMove_orphan_guard repo_main db_feature_pr "feature:renamed"
           "feature" "renamed" _ pr42).
  - vm_compute. lia.
  - reflexivity.
  - discriminate.
  - apply (keyed_singleton
             (mkBranch "feature" (mkBranchState "main" true EmptyString)
                       (Some pr42))).
  - reflexivity.
  - reflexivity.
Defined.

(** ** Rename keeps the place in the stack *)

Example world_foo_store :
  branches world_foo.2
  = {[ "foo" := mkBranch "foo" (mkBranchState "foo" true EmptyString) None ]}
  ∧ currentBranch world_foo.1 = Some "foo".
Proof. vm_compute. done. Qed.

(** C10, as stated, fails for a record that names itself as parent, which
    the code itself writes when the checked-out trunk branch is renamed
    without having a record ([world_foo]): renaming [foo] on to [bar]
    stores [bar] with parent name [bar], not [foo], because the children
    loop of lines 287-290 rewrites the renamed record too. *)
Lemma keeps_parent_counterexample :
  ¬ keeps_parent world_foo.1 world_foo.2 "bar" false.
Proof.
  intros H.
  destruct (H "foo" "bar"
              (mkBranch "foo" (mkBranchState "foo" true EmptyString) None)
              (snd (fst (branchMove world_foo.1 world_foo.2 "bar" false)))
              (snd (branchMove world_foo.1 world_foo.2 "bar" false)))
    as (b' & Hb' & Hp).
  - vm_compute. reflexivity.
  - vm_compute. reflexivity.
  - vm_compute. reflexivity.
  - vm_compute in Hb'. injection Hb' as <-. discriminate Hp.
Qed.

(** C10, amended. In a store keyed by branch name, after a successful
    rename of a branch that has a record, the record stored under the new
    name carries the new name, no pull request, and the trunk flag and
    head commit of the old record. Its parent name is the old record's
    whenever that is not the old name itself, and the record is then
    exactly the old one with its name replaced and its pull request
    cleared; a record that named itself as parent names itself again,
    under its new name. *)
Theorem branchMove_keeps_parent repo db arg force old new b repo' db' :
  moveNames repo arg = Some (old, new) →
  keyed (branches db) →
  branches db !! old = Some b →
  branchMove repo db arg force = (None, repo', db') →
  ∃ b',
    branches db' !! new = Some b'
    ∧ Branch_Name b' = new
    ∧ Branch_PullRequest b' = None
    ∧ BranchState_Trunk (Branch_Parent b') = BranchState_Trunk (Branch_Parent b)
    ∧ BranchState_Head (Branch_Parent b') = BranchState_Head (Branch_Parent b)
    ∧ (parentName b ≠ old →
       b' = mkBranch new (Branch_Parent b) None)
    ∧ (parentName b = old → parentName b' = new).
Proof.
  intros Hn Hk Hb Hrun.
  apply branchMove_success in Hrun as (old' & new' & cm & Hn' & Hne & Hm & _ & Hout).
  rewrite Hn in Hn'. injection Hn' as <- <-.
  rewrite (metaOrDefault_tracked _ _ _ _ Hb) in Hm. injection Hm as <-.
  apply moveOutcome_success in Hout as (-> & _ & _).
  cbn [branches]. rewrite stagedMove_new by done.
  eexists. split; [done|].
  rewrite reparent_Name, reparent_PullRequest.
  destruct (reparent_Trunk_Head old new (set_Name new (set_PullRequest None b)))
    as [-> ->].
  repeat split; try done.
  - intros Hp. unfold reparent. rewrite bool_decide_eq_false_2; done.
  - intros Hp. rewrite reparent_parentName.
    rewrite bool_decide_eq_true_2; done.
Qed.

Lemma keyed_db_stack : keyed (branches db_stack).
Proof.
  apply (keyed_insert _ feature1), (keyed_insert _ feature2), keyed_empty.
Qed.

Lemma branchMove_keeps_parent_witness :
  ∃ b',
    branches (snd (branchMove repo_stack db_stack "feature-1-renamed" false))
      !! "feature-1-renamed" = Some b'
    ∧ Branch_Name b' = "feature-1-renamed"
    ∧ Branch_PullRequest b' = None
    ∧ BranchState_Trunk (Branch_Parent b')
      = BranchState_Trunk (Branch_Parent feature1)
    ∧ BranchState_Head (Branch_Parent b')
      = BranchState_Head (Branch_Parent feature1)
    ∧ (parentName feature1 ≠ "feature-1" →
       b' = mkBranch "feature-1-renamed" (Branch_Parent feature1) None)
    ∧ (parentName feature1 = "feature-1" → parentName b' = "feature-1-renamed").
Proof.
  apply (branchMove_keeps_parent repo_stack db_stack "feature-1-renamed" false
           "feature-1" "feature-1-renamed" feature1
           (snd (fst (branchMove repo_stack db_stack "feature-1-renamed" false)))).
  - reflexivity.
  - apply keyed_db_stack.
  - reflexivity.
  - vm_compute. reflexivity.
Defined.

(** ** Rename reaches the children *)

(** C1, as stated, fails when the new name is the name of a child of the
    old branch: [SetBranch] overwrites that child's record with the renamed
    one, whose parent is the old branch's parent. *)
Lemma propagates_counterexample :
  ¬ propagates repo_main db_collide "old:new" false.
Proof.
  intros H.
  destruct (H "old" "new"
              (snd (fst (branchMove repo_main db_collide "old:new" false)))
              (snd (branchMove repo_main db_collide "old:new" false))
              eq_refl) as [Hchildren _].
  { vm_compute. reflexivity. }
  destruct (Hchildren "new"
              (mkBranch "new" (mkBranchState "old" false "c1") None))
    as (c' & Hc' & Hp); [reflexivity | reflexivity |].
  vm_compute in Hc'. injection Hc' as <-. discriminate Hp.
Qed.

(** C1, amended. In a store keyed by branch name, after a successful rename
    of [old] to [new] every record whose parent name was [old] and whose own
    name is not [new] has parent name [new] (and is otherwise the record it
    was; the renamed record itself is the one found under [new]), and no
    record has parent name [old]. *)
Theorem branchMove_propagates repo db arg force old new repo' db' :
  moveNames repo arg = Some (old, new) →
  keyed (branches db) →
  branchMove repo db arg force = (None, repo', db') →
  (∀ k c, branches db !! k = Some c → parentName c = old → k ≠ new →
          ∃ c', branches db' !! (if decide (k = old) then new else k) = Some c'
                ∧ parentName c' = new
                ∧ (k ≠ old → c' = set_Parent_Name new c))
  ∧ (∀ k c', branches db' !! k = Some c' → parentName c' ≠ old).
Proof.
  intros Hn Hk Hrun.
  apply branchMove_success in Hrun
    as (old' & new' & cm & Hn' & Hne & Hm & _ & Hout).
  rewrite Hn in Hn'. injection Hn' as <- <-.
  apply moveOutcome_success in Hout as (-> & _ & _).
  cbn [branches]. split.
  - intros k c Hc Hp Hknew.
    destruct (decide (k = old)) as [->|Hkold].
    + rewrite (metaOrDefault_tracked _ _ _ _ Hc) in Hm. injection Hm as <-.
      rewrite stagedMove_new by done.
      eexists. split; [done|]. split; [|done].
      rewrite reparent_parentName. by rewrite bool_decide_eq_true_2.
    + rewrite stagedMove_lookup by done.
      rewrite decide_False by done. cbn [set_Name Branch_Name].
      rewrite lookup_insert_ne by done. rewrite Hc. cbn.
      eexists. split; [done|].
      unfold reparent. rewrite bool_decide_eq_true_2 by done. done.
  - intros k c'. rewrite stagedMove_lookup by done.
    case_decide; [done|].
    intros Hl. apply fmap_Some in Hl as (c & _ & ->).
    by apply reparent_not_old.
Qed.

Lemma branchMove_propagates_witness :
  (∀ k c, branches db_stack !! k = Some c → parentName c = "feature-1" →
          k ≠ "feature-1-renamed" →
          ∃ c', branches
                  (snd (branchMove repo_stack db_stack "feature-1-renamed" false))
                  !! (if decide (k = "feature-1") then "feature-1-renamed" else k)
                = Some c'
                ∧ parentName c' = "feature-1-renamed"
                ∧ (k ≠ "feature-1" →
                   c' = set_Parent_Name "feature-1-renamed" c))
  ∧ (∀ k c',
        branches (snd (branchMove repo_stack db_stack "feature-1-renamed" false))
          !! k = Some c' →
        parentName c' ≠ "feature-1").
Proof.
  apply (branchMove_propagates repo_stack db_stack "feature-1-renamed" false
           "feature-1" "feature-1-renamed"
           (snd (fst (branchMove repo_stack db_stack "feature-1-renamed" false)))).
  - reflexivity.
  - apply keyed_db_stack.
  - vm_compute. reflexivity.
Defined.

(** The scenario of the specification: renaming [feature-1] moves
    [feature-2] onto the new name, removes the old record and renames the
    branch in Git. *)
Example rename_scenario :
  let '(err, repo', db') :=
    branchMove repo_stack db_stack "feature-1-renamed" false in
  err = None
  ∧ parentName <$> branches db' !! "feature-2" = Some "feature-1-renamed"
  ∧ branches db' !! "feature-1" = None
  ∧ heads repo' !! "feature-1" = None
  ∧ heads repo' !! "feature-1-renamed" = Some "c1".
Proof. vm_compute. done. Qed.

(** ** Renaming a branch that has no record *)

(** C9. A rename whose old branch has no record does not stop there: the
    record it works with is the zero record with the default branch as
    trunk parent, which passes the pull-request guard whatever [force] is,
    so the rename goes on to the staged writes and the Git rename. When the
    old branch does not exist in Git either, no Git call is made and the
    transaction is committed: the operation succeeds, the repository is
    unchanged, and the record stored under the new name has a trunk parent,
    the default branch unless the old name was the default branch itself
    (then the children loop has renamed the parent of the new record
    too). *)
Theorem branchMove_untracked repo db arg force old new d :
  ¬ 1 < strings.Count arg colon →
  moveNames repo arg = Some (old, new) →
  old ≠ new →
  keyed (branches db) →
  branches db !! old = None →
  DefaultBranch repo = Some d →
  metaOrDefault repo (branches db) old = Some (defaultMeta d)
  ∧ Branch_Parent (defaultMeta d) = mkBranchState d true EmptyString
  ∧ branchMove repo db arg force = moveOutcome repo db old new (defaultMeta d)
  ∧ (DoesBranchExist repo old = Some false →
     commitFails db = false →
     ∃ db' b',
       branchMove repo db arg force = (None, repo, db')
       ∧ tx db' = TxCommitted
       ∧ branches db' !! new = Some b'
       ∧ BranchState_Trunk (Branch_Parent b') = true
       ∧ (old ≠ d → b' = mkBranch new (mkBranchState d true EmptyString) None)).
Proof.
  intros Hc Hn Hne Hk Hb Hd.
  assert (metaOrDefault repo (branches db) old = Some (defaultMeta d)) as Hm.
  { unfold metaOrDefault. by rewrite Hb, Hd. }
  assert (branchMove repo db arg force
          = moveOutcome repo db old new (defaultMeta d)) as Hgo
    by (by apply branchMove_proceeds).
  repeat split; try done.
  intros He Hcf. rewrite Hgo. unfold moveOutcome. rewrite He, Hcf.
  eexists. eexists. split; [done|]. cbn [tx branches].
  split; [done|]. rewrite stagedMove_new by done.
  split; [done|]. split.
  - by destruct (reparent_Trunk_Head old new
                   (set_Name new (set_PullRequest None (defaultMeta d))))
      as [-> _].
  - intros Hod. unfold reparent.
    rewrite bool_decide_eq_false_2; [done|]. cbn. congruence.
Qed.

Lemma branchMove_untracked_witness :
  ∃ db',
    branchMove repo_main db_empty "ghost:kept" false = (None, repo_main, db')
    ∧ tx db' = TxCommitted
    ∧ branches db' !! "kept"
      = Some (mkBranch "kept" (mkBranchState "main" true EmptyString) None).
Proof.
  destruct (branchMove_untracked repo_main db_empty "ghost:kept" false
              "ghost" "kept" "main") as (_ & _ & _ & Hcommit).
  - vm_compute. lia.
  - reflexivity.
  - discriminate.
  - apply keyed_empty.
  - reflexivity.
  - reflexivity.
  - destruct Hcommit as (db' & b' & Hrun & Htx & Hb' & _ & Hparent);
      [reflexivity | reflexivity |].
    exists db'. split; [exact Hrun|]. split; [exact Htx|].
    rewrite Hb'. f_equal. apply Hparent. discriminate.
Defined.

(** ** Which Git branch a rename renames *)

(** C5, on the code: [branchMove] asks whether the old branch exists and
    then runs [git branch -m NEW], which renames the branch that is
    checked out. Renaming [a] to [c] while [b] is checked out succeeds,
    moves the record of [a] to [c], and in Git renames [b]: [a] is still
    there, [b] is gone and [c] points at the commit of [b]. *)
Theorem branchMove_renames_checked_out_branch :
  let '(err, repo', db') := branchMove repo_on_b db_a "a:c" false in
  err = None
  ∧ journal repo' = [CallRun ["branch"; "-m"; "c"]]
  ∧ heads repo' !! "a" = Some "c1"
  ∧ heads repo' !! "b" = None
  ∧ heads repo' !! "c" = Some "c2"
  ∧ branches db' !! "a" = None
  ∧ is_Some (branches db' !! "c").
Proof. vm_compute. repeat split; eauto. Qed.

(** Where the old branch is the one checked out, [git branch -m NEW] does
    rename it; where another branch is checked out, the old branch keeps
    its name in Git. *)
Lemma Run_branch_m repo new repo' :
  Run repo ["branch"; "-m"; new] = (true, repo') →
  ∃ cur commit,
    currentBranch repo = Some cur ∧ heads repo !! cur = Some commit
    ∧ (cur = new ∧ heads repo' = heads repo
       ∨ cur ≠ new ∧ heads repo' = <[new := commit]> (delete cur (heads repo))).
Proof.
  unfold Run. destruct (fails repo OpRun); [discriminate|].
  destruct (currentBranch repo) as [cur|]; [|discriminate].
  unfold renameHead.
  destruct (heads repo !! cur) as [commit|] eqn:Hh; [|discriminate].
  case_bool_decide as Heq.
  - intros [= <-]. exists cur, commit. split; [done|]. split; [done|].
    left. done.
  - destruct (heads repo !! new); [discriminate|].
    intros [= <-]. exists cur, commit. split; [done|]. split; [done|].
    right. done.
Qed.

Lemma branchMove_git_rename repo db arg force old new repo' db' :
  moveNames repo arg = Some (old, new) →
  branchMove repo db arg force = (None, repo', db') →
  is_Some (heads repo !! old) →
  (currentBranch repo = Some old →
   heads repo' !! old = None ∧ heads repo' !! new = heads repo !! old)
  ∧ (currentBranch repo ≠ Some old →
     heads repo' !! old = heads repo !! old).
Proof.
  intros Hn Hrun Hold.
  apply branchMove_success in Hrun
    as (old' & new' & cm & Hn' & Hne & _ & _ & Hout).
  rewrite Hn in Hn'. injection Hn' as <- <-.
  apply moveOutcome_success in Hout as (_ & _ & [[_ Hr]|[He _]]).
  2: { unfold DoesBranchExist in He.
       destruct (fails repo OpDoesBranchExist); [discriminate|].
       rewrite bool_decide_eq_true_2 in He by done. discriminate. }
  apply Run_branch_m in Hr as (cur & commit & Hcur & Hc & Hheads).
  split.
  - intros Hco. rewrite Hcur in Hco. injection Hco as ->.
    destruct Hheads as [[-> _]|[_ ->]]; [done|].
    rewrite lookup_insert_ne by done. rewrite lookup_delete_eq.
    by rewrite lookup_insert_eq.
  - intros Hco. rewrite Hcur in Hco.
    destruct Hheads as [[_ ->]|[Hcn ->]]; [done|].
    rewrite lookup_insert_ne by done.
    rewrite lookup_delete_ne; [done|]. congruence.
Qed.

(** ** Adopting on a parent that is not tracked *)

(** C4, as stated, fails for a parent that Git cannot resolve: the head
    commit of the parent is looked up before its record is, and the error
    returned is the wrapped [RevParse] one. *)
Lemma refuses_untracked_parent_counterexample :
  ¬ refuses_untracked_parent repo_main db_empty "feature" "ghost".
Proof.
  intros H.
  destruct (H "main" "ghost") as (db' & Hrun & _); try reflexivity.
  vm_compute in Hrun. discriminate Hrun.
Qed.

(** C4, amended. An adoption whose resolved parent is not a trunk branch
    and has no record always fails, with the repository as it was, its
    journal of mutating calls included (no branch is created, nothing is
    checked out), and with the committed records unchanged and the
    transaction aborted; the error is [errParentNotAdopted] whenever Git
    can resolve the head commit of the parent, and the wrapped [RevParse]
    error otherwise. *)
Theorem createBranch_parent_not_adopted repo db branchName parent d P :
  DefaultBranch repo = Some d →
  resolveParent repo d parent = Some P →
  IsTrunkBranch repo P = Some false →
  branches db !! P = None →
  ∃ e db',
    createBranch repo db branchName parent = (Some e, repo, db')
    ∧ branches db' = branches db
    ∧ tx db' = TxAborted
    ∧ (is_Some (RevParse repo P) → e = errParentNotAdopted)
    ∧ (RevParse repo P = None →
       e = Wrap (GitError OpRevParse)
             "failed to determine head commit of branch %q" [EmptyString]).
Proof.
  intros Hd Hp Ht Hb.
  destruct (RevParse repo P) as [head|] eqn:Hr.
  - exists errParentNotAdopted, (aborted db).
    rewrite (createBranch_not_adopted _ _ _ _ d P head) by done.
    repeat split; try done.
  - eexists. exists (aborted db).
    rewrite (createBranch_no_head _ _ _ _ d P) by done.
    repeat split; try done.
Qed.

Lemma createBranch_parent_not_adopted_witness :
  ∃ e db',
    createBranch repo_untracked db_empty "feature-2" EmptyString
    = (Some e, repo_untracked, db')
    ∧ branches db' = branches db_empty
    ∧ tx db' = TxAborted
    ∧ (is_Some (RevParse repo_untracked "feature-1") → e = errParentNotAdopted)
    ∧ (RevParse repo_untracked "feature-1" = None →
       e = Wrap (GitError OpRevParse)
             "failed to determine head commit of branch %q" [EmptyString]).
Proof.
  apply (createBranch_parent_not_adopted repo_untracked db_empty "feature-2"
           EmptyString "main" "feature-1"); reflexivity.
Defined.

(** ** Adopting on trunk *)

Lemma CheckoutBranch_new repo name commit ok repo' :
  CheckoutBranch repo name true commit = (ok, repo') →
  journal repo' = (journal repo ++ [CallCheckoutBranch name true commit])%list
  ∧ (ok = true →
     heads repo' = <[name := commit]> (heads repo)
     ∧ currentBranch repo' = Some name)
  ∧ (ok = false →
     heads repo' = heads repo ∧ currentBranch repo' = currentBranch repo).
Proof.
  unfold CheckoutBranch.
  destruct (fails repo OpCheckoutBranch).
  { intros [= <- <-]. by repeat split. }
  destruct (heads repo !! name); intros [= <- <-]; by repeat split.
Qed.



Example adopt_on_trunk_starts_at_remote :
  let '(e, repo', db') := createBranch repo_stale db_empty "feature-1" EmptyString in
  e = None ∧ heads repo' !! "feature-1" = Some "c9"
  ∧ heads repo' !! "main" = Some "c0".
Proof. vm_compute. done. Qed.

(** The scenario of the specification: adopting [feature-2] with no
    explicit parent while the tracked [feature-1] is checked out. *)
Example adopt_scenario :
  let '(e, repo', db') := createBranch repo_stack (mkDB {[ "feature-1" := feature1 ]} false TxNone)
                            "feature-3" EmptyString in
  e = None
  ∧ branches db' !! "feature-3"
    = Some (mkBranch "feature-3" (mkBranchState "feature-1" false "c1") None)
  ∧ currentBranch repo' = Some "feature-3".
Proof. vm_compute. done. Qed.

(** ** Failures after a side effect *)

(** Every run of [createBranch] either stops before the starting point is
    resolved, with the repository untouched and the database untouched or
    its transaction aborted, or goes through [adoptOutcome] with a parent
    that is a trunk branch, or one that Git resolves and that has a
    record. *)
Lemma createBranch_cases repo db name parent :
  (∃ e db', createBranch repo db name parent = (Some e, repo, db')
            ∧ (db' = db ∨ db' = aborted db))
  ∨ (∃ d P isTrunk head start,
        DefaultBranch repo = Some d
        ∧ resolveParent repo d parent = Some P
        ∧ IsTrunkBranch repo P = Some isTrunk
        ∧ (isTrunk = true ∨ is_Some (branches db !! P))
        ∧ createBranch repo db name parent
          = adoptOutcome repo db name P isTrunk head start).
Proof.
  destruct (DefaultBranch repo) as [d|] eqn:Hd.
  2: { left. rewrite createBranch_no_default by done. eauto. }
  destruct (resolveParent repo d parent) as [P|] eqn:Hp.
  2: { left. rewrite (createBranch_no_parent _ _ _ _ d) by done. eauto. }
  destruct (IsTrunkBranch repo P) as [[|]|] eqn:Ht.
  3: { left. rewrite (createBranch_trunk_unknown _ _ _ _ d P) by done. eauto. }
  { right. exists d, P, true. do 2 eexists.
    rewrite (createBranch_trunk _ _ _ _ d P) by done. eauto 10. }
  destruct (RevParse repo P) as [head|] eqn:Hr.
  2: { left. rewrite (createBranch_no_head _ _ _ _ d P) by done. eauto. }
  destruct (branches db !! P) as [pb|] eqn:Hb.
  2: { left. rewrite (createBranch_not_adopted _ _ _ _ d P head) by done.
       eauto. }
  right. exists d, P, false, head, P.
  rewrite (createBranch_stacked _ _ _ _ d P head) by (by rewrite ?Hb).
  rewrite Hb. eauto 10.
Qed.

(** An adoption that created the branch can only fail in [tx.Commit()], and
    by then [cu.Cancel()] has emptied the cleanup stack: the new branch
    stays, checked out, and the transaction is left open. *)
Lemma createBranch_failure_after_checkout repo db name parent e repo' db' :
  createBranch repo db name parent = (Some e, repo', db') →
  heads repo' ≠ heads repo →
  e = CommitError
  ∧ currentBranch repo' = Some name
  ∧ is_Some (heads repo' !! name)
  ∧ (∃ staged, tx db' = TxOpen staged)
  ∧ branches db' = branches db.
Proof.
  intros Hrun Hheads.
  destruct (createBranch_cases repo db name parent)
    as [(e0 & db0 & Heq & _)|(d & P & isTrunk & head & start & _ & _ & _ & _ & Heq)];
    rewrite Heq in Hrun.
  { injection Hrun as <- <- <-. done. }
  unfold adoptOutcome in Hrun.
  destruct (RevParse repo start) as [commit|].
  2: { injection Hrun as <- <- <-. done. }
  destruct (CheckoutBranch repo name true commit) as [ok r1] eqn:Hco.
  apply CheckoutBranch_new in Hco as (_ & Hok & Hko).
  destruct ok.
  - destruct (Hok eq_refl) as [Hh Hcur].
    destruct (commitFails db); [|discriminate].
    injection Hrun as <- <- <-. rewrite Hh, lookup_insert_eq. cbn.
    repeat split; eauto.
  - injection Hrun as <- <- <-. by destruct (Hko eq_refl).
Qed.

(** C6, on the code. The adoption of [feature] while the commit of the
    metadata transaction fails: the error is returned after the branch has
    been created and checked out, and no cleanup action runs. The journal
    holds the creating checkout alone (no checkout back to [main], no
    branch deletion), [feature] exists and is checked out, and the
    transaction was neither committed nor aborted. *)
Theorem createBranch_commit_failure_keeps_branch :
  let '(err, repo', db') :=
    createBranch repo_main (mkDB ∅ true TxNone) "feature" EmptyString in
  err = Some CommitError
  ∧ journal repo' = [CallCheckoutBranch "feature" true "c1"]
  ∧ currentBranch repo' = Some "feature"
  ∧ heads repo' !! "feature" = Some "c1"
  ∧ branches db' = ∅
  ∧ tx db' ≠ TxAborted.
Proof. vm_compute. repeat split; discriminate. Qed.

Lemma Run_failed repo args repo' :
  Run repo args = (false, repo') →
  heads repo' = heads repo ∧ currentBranch repo' = currentBranch repo.
Proof.
  unfold Run, renameHead.
  repeat (case_match; try discriminate); by intros [= <-].
Qed.

(** The rename half of C6 holds: when the Git rename (or the existence
    check before it) fails after the writes were staged, the deferred
    [tx.Abort()] runs, the committed records are the ones before the
    operation and Git's branches are as they were. *)
Lemma branchMove_git_failure_aborts repo db arg force old new cm :
  ¬ 1 < strings.Count arg colon →
  moveNames repo arg = Some (old, new) →
  old ≠ new →
  metaOrDefault repo (branches db) old = Some cm →
  (force = false → Branch_PullRequest cm = None) →
  DoesBranchExist repo old = None
  ∨ (DoesBranchExist repo old = Some true
     ∧ fst (Run repo ["branch"; "-m"; new]) = false) →
  ∃ e repo',
    branchMove repo db arg force = (Some e, repo', aborted db)
    ∧ heads repo' = heads repo
    ∧ currentBranch repo' = currentBranch repo.
Proof.
  intros Hc Hn Hne Hm Hpr Hfail.
  rewrite (branchMove_proceeds _ _ _ _ old new cm) by done.
  unfold moveOutcome.
  destruct Hfail as [->|[-> Hrun]]; [eauto|].
  destruct (Run repo ["branch"; "-m"; new]) as [ok r1] eqn:Hr.
  cbn in Hrun. subst ok.
  apply Run_failed in Hr as [? ?]. eauto.
Qed.

(** A rename whose commit fails has the same gap: the cleanup stack was
    cancelled first, so Git keeps the renamed branch and the transaction is
    left open. *)
Lemma branchMove_commit_failure repo db arg force old new cm repo1 :
  ¬ 1 < strings.Count arg colon →
  moveNames repo arg = Some (old, new) →
  old ≠ new →
  metaOrDefault repo (branches db) old = Some cm →
  (force = false → Branch_PullRequest cm = None) →
  DoesBranchExist repo old = Some true →
  Run repo ["branch"; "-m"; new] = (true, repo1) →
  commitFails db = true →
  ∃ db',
    branchMove repo db arg force = (Some CommitError, repo1, db')
    ∧ branches db' = branches db
    ∧ (∃ staged, tx db' = TxOpen staged).
Proof.
  intros Hc Hn Hne Hm Hpr He Hr Hcf.
  rewrite (branchMove_proceeds _ _ _ _ old new cm) by done.
  unfold moveOutcome. rewrite He, Hr, Hcf. eauto.
Qed.

(** ** The parent graph *)

Lemma reachesTrunk_rooted repo m hops : ∀ k,
  reachesTrunk repo m hops k = true → rooted repo m k.
Proof.
  induction hops as [|hops IH]; intros k; cbn; [discriminate|].
  destruct (m !! k) as [b|] eqn:Hb; [|discriminate].
  intros H. apply orb_true_iff in H as [H|H].
  - by eapply rooted_trunk.
  - eapply rooted_step; [done|]. by apply IH.
Qed.

Lemma rooted_hopsToTrunk repo m k :
  rooted repo m k → ∃ n, hopsToTrunk repo m n k.
Proof.
  induction 1 as [k b Hb Ht|k b Hb _ [n IH]].
  - exists 1. by eapply hops_one.
  - destruct (isTrunkName repo (parentName b)) eqn:Ht.
    + exists 1. by eapply hops_one.
    + exists (S n). by eapply hops_more.
Qed.

Lemma hopsToTrunk_reachesTrunk repo m n k :
  hopsToTrunk repo m n k → reachesTrunk repo m n k = true.
Proof.
  induction 1 as [k b Hb Ht|n k b Hb Ht _ IH]; cbn; rewrite Hb.
  - by rewrite Ht.
  - rewrite IH. apply orb_true_r.
Qed.

(** The walk is deterministic: the number of hops from a record is fixed. *)
Lemma hopsToTrunk_functional repo m n k :
  hopsToTrunk repo m n k → ∀ n', hopsToTrunk repo m n' k → n = n'.
Proof.
  induction 1 as [k b Hb Ht|n k b Hb Ht _ IH];
    intros n'; inversion 1 as [k' b' Hb' Ht'|n0 k' b' Hb' Ht' Hrest];
    subst; rewrite Hb in Hb'; injection Hb' as <-; try congruence.
  f_equal. by apply IH.
Qed.

(** So the walk never meets a record twice, and cannot be longer than the
    store is large. *)
Lemma hopsToTrunk_visits repo m n k :
  hopsToTrunk repo m n k →
  ∃ visited : list string,
    List.length visited = n ∧ NoDup visited
    ∧ ∀ k', k' ∈ visited →
        is_Some (m !! k') ∧ ∃ n', (n' ≤ n)%nat ∧ hopsToTrunk repo m n' k'.
Proof.
  induction 1 as [k b Hb Ht|n k b Hb Ht Hrest (visited & Hlen & Hnd & Hvis)].
  - exists [k]. split; [done|]. split; [apply NoDup_singleton|].
    intros k' Hk'. apply list_elem_of_singleton in Hk' as ->.
    split; [done|]. exists 1. split; [done|]. by eapply hops_one.
  - exists (k :: visited). split; [by rewrite <- Hlen|]. split.
    + apply NoDup_cons. split; [|done].
      intros Hin. destruct (Hvis _ Hin) as (_ & n' & Hle & Hn').
      assert (S n = n') as Heq.
      { eapply hopsToTrunk_functional; [|done]. by eapply hops_more. }
      lia.
    + intros k' Hk'. apply elem_of_cons in Hk' as [->|Hin].
      * split; [done|]. exists (S n). split; [done|]. by eapply hops_more.
      * destruct (Hvis _ Hin) as (Hsome & n' & Hle & Hn').
        split; [done|]. exists n'. split; [lia | done].
Qed.

Lemma hopsToTrunk_bounded repo m n k :
  hopsToTrunk repo m n k → (n ≤ size m)%nat.
Proof.
  intros Hn. destruct (hopsToTrunk_visits _ _ _ _ Hn)
    as (visited & <- & Hnd & Hvis).
  rewrite <- (length_map_to_list m), <- (length_fmap fst (map_to_list m)).
  apply submseteq_length, NoDup_submseteq; [done|].
  intros k' Hk'. destruct (Hvis _ Hk') as [[b Hb] _].
  apply list_elem_of_fmap. exists (k', b). split; [done|].
  by apply elem_of_map_to_list.
Qed.

Lemma rooted_reachesTrunk repo m k :
  rooted repo m k →
  ∃ hops, (hops ≤ size m)%nat ∧ reachesTrunk repo m hops k = true.
Proof.
  intros Hr. destruct (rooted_hopsToTrunk _ _ _ Hr) as [n Hn].
  exists n. split.
  - by eapply hopsToTrunk_bounded.
  - by apply hopsToTrunk_reachesTrunk.
Qed.

Lemma endsAtTrunk_rooted repo m :
  endsAtTrunk repo m ↔ ∀ k b, m !! k = Some b → rooted repo m k.
Proof.
  split; intros H k b Hb.
  - destruct (H k b Hb) as (hops & _ & Hh). by eapply reachesTrunk_rooted.
  - apply rooted_reachesTrunk. by eapply H.
Qed.

Lemma rooted_is_Some repo m k : rooted repo m k → is_Some (m !! k).
Proof. by destruct 1; eexists. Qed.

Lemma isTrunkName_sameTrunks r r' name :
  sameTrunks r r' → isTrunkName r' name = isTrunkName r name.
Proof. intros [Hd Ha]. unfold isTrunkName. by rewrite Hd, Ha. Qed.

Lemma rooted_sameTrunks r r' m k :
  sameTrunks r r' → rooted r m k → rooted r' m k.
Proof.
  intros Hs. induction 1 as [k b Hb Ht|k b Hb _ IH].
  - eapply rooted_trunk; [done|]. by rewrite (isTrunkName_sameTrunks r).
  - by eapply rooted_step.
Qed.

Lemma sameTrunks_refl r : sameTrunks r r.
Proof. done. Qed.

Lemma CheckoutBranch_sameTrunks r name new ref ok r' :
  CheckoutBranch r name new ref = (ok, r') → sameTrunks r r'.
Proof.
  unfold CheckoutBranch.
  repeat (case_match; try discriminate); by intros [= <- <-].
Qed.

Lemma Run_sameTrunks r args ok r' :
  Run r args = (ok, r') → sameTrunks r r'.
Proof.
  unfold Run, renameHead.
  repeat (case_match; try discriminate); by intros [= <- <-].
Qed.

(** *** Adoption keeps the forest *)

Lemma rooted_insert_fresh repo m name record k :
  m !! name = None → rooted repo m k → rooted repo (<[name := record]> m) k.
Proof.
  intros Hfresh. induction 1 as [k b Hb Ht|k b Hb _ IH].
  - eapply rooted_trunk; [|done].
    rewrite lookup_insert_ne; [done|]. congruence.
  - eapply rooted_step; [|done].
    rewrite lookup_insert_ne; [done|]. congruence.
Qed.

Lemma endsAtTrunk_adopt repo m name P isTrunk head :
  endsAtTrunk repo m →
  m !! name = None →
  (isTrunkName repo P = true ∨ is_Some (m !! P)) →
  endsAtTrunk repo
    (<[name := mkBranch name (mkBranchState P isTrunk head) None]> m).
Proof.
  rewrite !endsAtTrunk_rooted. intros Hf Hfresh Hparent k b Hb.
  destruct (decide (k = name)) as [->|Hne].
  - rewrite lookup_insert_eq in Hb. injection Hb as <-.
    destruct Hparent as [Ht|[pb Hpb]].
    + eapply rooted_trunk; [apply lookup_insert_eq | done].
    + eapply rooted_step; [apply lookup_insert_eq |].
      cbn. apply rooted_insert_fresh; [done|]. by eapply Hf.
  - rewrite lookup_insert_ne in Hb by done.
    apply rooted_insert_fresh; [done|]. by eapply Hf.
Qed.

(** *** Rename keeps the forest, for a new name that is free *)

Section rename_forest.

Variable repo : Repo.
Variable m : gmap string Branch.
Variables old new : string.
Variable cm : Branch.

Hypothesis Hkeyed : keyed m.
Hypothesis Hforest : ∀ k b, m !! k = Some b → rooted repo m k.
Hypothesis Hne : old ≠ new.
Hypothesis Hold : isTrunkName repo old = false.
Hypothesis Hnew : m !! new = None.
Hypothesis Hmeta : metaOrDefault repo m old = Some cm.

Local Abbreviation m' :=
  (stagedMove m old new (set_Name new (set_PullRequest None cm))).
Local Abbreviation ren := (renamed old new).

Lemma moved_edge k b :
  m !! k = Some b →
  ∃ b', m' !! ren k = Some b' ∧ parentName b' = ren (parentName b).
Proof using Hkeyed Hne Hnew Hmeta.
  intros Hb. unfold renamed at 1. destruct (decide (k = old)) as [->|Hk].
  - rewrite (metaOrDefault_tracked _ _ _ _ Hb) in Hmeta.
    injection Hmeta as <-.
    rewrite stagedMove_new by done.
    eexists. split; [done|]. rewrite reparent_parentName. unfold renamed.
    change (parentName (set_Name new (set_PullRequest None b)))
      with (parentName b).
    case_bool_decide; case_decide; done.
  - assert (k ≠ new) by congruence.
    rewrite stagedMove_lookup by done.
    rewrite decide_False by done. cbn [set_Name Branch_Name].
    rewrite lookup_insert_ne by done. rewrite Hb. cbn.
    eexists. split; [done|]. rewrite reparent_parentName. unfold renamed.
    case_bool_decide; case_decide; done.
Qed.

Lemma rooted_moved k : rooted repo m k → rooted repo m' (ren k).
Proof using Hkeyed Hne Hold Hnew Hmeta.
  induction 1 as [k b Hb Ht|k b Hb _ IH].
  - destruct (moved_edge k b Hb) as (b' & Hb' & Hp).
    eapply rooted_trunk; [done|]. rewrite Hp. unfold renamed.
    case_decide as Hpo; [|done]. congruence.
  - destruct (moved_edge k b Hb) as (b' & Hb' & Hp).
    eapply rooted_step; [done|]. by rewrite Hp.
Qed.

Lemma forest_moved k b' : m' !! k = Some b' → rooted repo m' k.
Proof using Hkeyed Hforest Hne Hold Hnew Hmeta.
  intros Hb'. pose proof Hb' as Hlook.
  rewrite stagedMove_lookup in Hlook by done.
  case_decide as Hk; [done|].
  apply fmap_Some in Hlook as (b0 & Hb0 & ->).
  cbn [set_Name Branch_Name] in Hb0.
  destruct (decide (k = new)) as [->|Hkn].
  - destruct (m !! old) as [b|] eqn:Hb.
    + pose proof (rooted_moved old (Hforest _ _ Hb)) as Hr.
      unfold renamed in Hr. by rewrite decide_True in Hr.
    + unfold metaOrDefault in Hmeta. rewrite Hb in Hmeta.
      destruct (DefaultBranch repo) as [d|] eqn:Hd; [|done].
      injection Hmeta as <-.
      assert (isTrunkName repo d = true) as Ht.
      { unfold isTrunkName. unfold DefaultBranch in Hd. rewrite Hd.
        by rewrite bool_decide_eq_true_2. }
      rewrite lookup_insert_eq in Hb0. injection Hb0 as <-.
      eapply rooted_trunk; [done|].
      rewrite reparent_parentName. cbn.
      case_bool_decide as Hdo; [|done].
      rewrite Hdo in Ht. congruence.
  - rewrite lookup_insert_ne in Hb0 by done.
    pose proof (rooted_moved k (Hforest _ _ Hb0)) as Hr.
    unfold renamed in Hr. by rewrite decide_False in Hr.
Qed.

End rename_forest.

(** *** Stores reachable by adopting and renaming *)

Lemma adoptOutcome_success repo db name P isTrunk head start repo' db' :
  adoptOutcome repo db name P isTrunk head start = (None, repo', db') →
  sameTrunks repo repo'
  ∧ branches db'
    = <[name := mkBranch name (mkBranchState P isTrunk head) None]> (branches db).
Proof.
  unfold adoptOutcome.
  destruct (RevParse repo start) as [commit|]; [|discriminate].
  destruct (CheckoutBranch repo name true commit) as [[|] r1] eqn:Hco;
    [|discriminate].
  destruct (commitFails db); [discriminate|].
  intros [= <- <-]. split; [|done]. by eapply CheckoutBranch_sameTrunks.
Qed.

Lemma IsTrunkBranch_Some repo name t :
  IsTrunkBranch repo name = Some t → t = isTrunkName repo name.
Proof.
  unfold IsTrunkBranch. repeat (case_match; try discriminate).
  by intros [= <-].
Qed.

(** *** No record is its own ancestor *)

Lemma ancestor_is_Some m k a : ancestor m k a → is_Some (m !! k).
Proof. by destruct 1; eexists. Qed.

(** When the trunk branches are roots, the walk from an ancestor that has
    a record is shorter than the walk from its descendant. *)
Lemma ancestor_hops repo m k a :
  trunkIsRoot repo m →
  ancestor m k a → is_Some (m !! a) →
  ∀ n, hopsToTrunk repo m n k →
       ∃ n', (n' < n)%nat ∧ hopsToTrunk repo m n' a.
Proof.
  intros Hroot. induction 1 as [k b Hb|k b a Hb Hanc IH]; intros Ha n Hn.
  - inversion Hn as [k' b' Hb' Ht|n0 k' b' Hb' Ht Hrest]; subst;
      rewrite Hb in Hb'; injection Hb' as <-.
    + apply Hroot in Ht. rewrite Ht in Ha. by destruct Ha.
    + exists n0. split; [lia | done].
  - inversion Hn as [k' b' Hb' Ht|n0 k' b' Hb' Ht Hrest]; subst;
      rewrite Hb in Hb'; injection Hb' as <-.
    + apply Hroot in Ht.
      destruct (ancestor_is_Some _ _ _ Hanc) as [pb Hpb]. congruence.
    + destruct (IH Ha _ Hrest) as (n' & Hlt & Hn').
      exists n'. split; [lia | done].
Qed.

Lemma rooted_acyclic repo m :
  trunkIsRoot repo m →
  (∀ k b, m !! k = Some b → rooted repo m k) →
  acyclic m.
Proof.
  intros Hroot Hf k Hanc.
  destruct (ancestor_is_Some _ _ _ Hanc) as [b Hb].
  destruct (rooted_hopsToTrunk _ _ _ (Hf _ _ Hb)) as [n Hn].
  destruct (ancestor_hops _ _ _ _ Hroot Hanc (mk_is_Some _ _ Hb) _ Hn)
    as (n' & Hlt & Hn').
  pose proof (hopsToTrunk_functional _ _ _ _ Hn _ Hn'). lia.
Qed.

Lemma reachable_strict_invariant repo db :
  reachable true repo db →
  keyed (branches db)
  ∧ trunkIsRoot repo (branches db)
  ∧ ∀ k b, branches db !! k = Some b → rooted repo (branches db) k.
Proof.
  induction 1 as [repo db Hempty
                 |repo db name parent repo' db' _ (Hk & Hroot & Hf) Hfresh Hrun
                 |repo db arg force repo' db' _ (Hk & Hroot & Hf) Hfresh Hrun].
  - rewrite Hempty. split; [apply keyed_empty|]. split.
    + intros k _. apply lookup_empty.
    + intros k b Hb. by rewrite lookup_empty in Hb.
  - destruct (Hfresh eq_refl) as [Hname Hnone].
    destruct (createBranch_cases repo db name parent)
      as [(e0 & db0 & Heq & _)
         |(d & P & isTrunk & head & start & _ & _ & Ht & Hparent & Heq)];
      rewrite Heq in Hrun; [discriminate|].
    apply adoptOutcome_success in Hrun as [Hsame ->].
    split; [|split].
    + apply (keyed_insert _ (mkBranch name (mkBranchState P isTrunk head) None)).
      done.
    + intros k Hkt. rewrite (isTrunkName_sameTrunks repo) in Hkt by done.
      rewrite lookup_insert_ne by congruence. by apply Hroot.
    + apply endsAtTrunk_rooted.
      assert (endsAtTrunk repo' (branches db)) as Hf'.
      { apply endsAtTrunk_rooted. intros k b Hb.
        apply (rooted_sameTrunks repo); [done|]. by eapply Hf. }
      apply endsAtTrunk_adopt; [done | done |].
      destruct Hparent as [->|Hp]; [|by right].
      left. rewrite (isTrunkName_sameTrunks repo) by done.
      symmetry. by apply IsTrunkBranch_Some.
  - destruct (Hfresh eq_refl) as (old & new & Hn & Hold & Hnewt & Hnew).
    apply branchMove_success in Hrun
      as (old' & new' & cm & Hn' & Hne & Hm & _ & Hout).
    rewrite Hn in Hn'. injection Hn' as <- <-.
    assert (sameTrunks repo repo') as Hsame.
    { apply moveOutcome_success in Hout as (_ & _ & [[_ Hr]|[_ ->]]).
      - by eapply Run_sameTrunks.
      - apply sameTrunks_refl. }
    apply moveOutcome_success in Hout as (-> & _ & _). cbn [branches].
    split; [by apply stagedMove_keyed|]. split.
    + intros k Hkt. rewrite (isTrunkName_sameTrunks repo) in Hkt by done.
      rewrite stagedMove_lookup by done.
      case_decide; [done|]. cbn [set_Name Branch_Name].
      rewrite lookup_insert_ne by congruence.
      by rewrite (Hroot _ Hkt).
    + intros k b' Hb'. apply (rooted_sameTrunks repo); [done|].
      by eapply forest_moved.
Qed.

Lemma reachable_adopt strict w branchName parent :
  reachable strict w.1 w.2 →
  (strict = true →
   isTrunkName w.1 branchName = false
   ∧ branches w.2 !! branchName = None) →
  (createBranch w.1 w.2 branchName parent).1.1 = None →
  reachable strict (adopt w branchName parent).1 (adopt w branchName parent).2.
Proof.
  intros Hw Hfresh Hok. unfold adopt.
  destruct (createBranch w.1 w.2 branchName parent) as [[e r'] d'] eqn:Hrun.
  cbn in Hok. subst e. by eapply reach_adopt.
Qed.

Lemma reachable_rename strict w arg force :
  reachable strict w.1 w.2 →
  (strict = true →
   ∃ old new, moveNames w.1 arg = Some (old, new)
              ∧ isTrunkName w.1 old = false
              ∧ isTrunkName w.1 new = false
              ∧ branches w.2 !! new = None) →
  (branchMove w.1 w.2 arg force).1.1 = None →
  reachable strict (rename w arg force).1 (rename w arg force).2.
Proof.
  intros Hw Hfresh Hok. unfold rename.
  destruct (branchMove w.1 w.2 arg force) as [[e r'] d'] eqn:Hrun.
  cbn in Hok. subst e. by eapply reach_rename.
Qed.

Example world_cycle_store :
  branches world_cycle.2
  = {[ "x" := mkBranch "x" (mkBranchState "x" false "c1") None ]}.
Proof. vm_compute. reflexivity. Qed.

Lemma world_cycle_reachable : reachable false world_cycle.1 world_cycle.2.
Proof.
  unfold world_cycle, world_ab.
  repeat first
    [ apply reachable_rename; [| discriminate | vm_compute; reflexivity]
    | apply reachable_adopt; [| discriminate | vm_compute; reflexivity] ].
  by apply reach_empty.
Qed.

(** In that store the record [x] is its own parent, and the walk from it
    never meets a trunk branch. *)
Example world_cycle_self_ancestor : ancestor (branches world_cycle.2) "x" "x".
Proof.
  rewrite world_cycle_store.
  exact (ancestor_parent _ "x" _ (lookup_singleton_eq _ _)).
Qed.

Example world_cycle_not_rooted :
  ¬ endsAtTrunk world_cycle.1 (branches world_cycle.2).
Proof.
  rewrite endsAtTrunk_rooted, world_cycle_store. intros H.
  specialize (H "x" _ (lookup_singleton_eq _ _)).
  assert (∀ start,
            ¬ rooted world_cycle.1
                {[ "x" := mkBranch "x" (mkBranchState "x" false "c1") None ]}
                start) as Hnone.
  { intros start Hrooted.
    induction Hrooted as [k b Hb Ht|k b Hb _ IH]; [|done].
    apply lookup_singleton_Some in Hb as [_ <-].
    vm_compute in Ht. discriminate. }
  exact (Hnone _ H).
Qed.

(** C2, as stated, fails: a rename to the name of an existing record
    overwrites that record, and here (adopt [a], adopt [b] on [a], rename
    [a:x] while [b] is checked out, rename [b:x]) leaves a record that is
    its own parent: it is its own ancestor, and no walk from it ends at a
    trunk branch. *)
Lemma forest_counterexample :
  ¬ (∀ repo db, reachable false repo db → forest repo (branches db)).
Proof.
  intros H.
  destruct (H _ _ world_cycle_reachable) as [_ Hacyclic].
  exact (Hacyclic "x" world_cycle_self_ancestor).
Qed.

(** Renaming an untracked trunk branch that is checked out has the same
    effect in one step: the made-up record is its own child. *)
Example rename_trunk_self_parent :
  let '(err, _, db') := branchMove repo_main db_empty "foo" false in
  err = None
  ∧ branches db'
    = {[ "foo" := mkBranch "foo" (mkBranchState "foo" true EmptyString) None ]}.
Proof. vm_compute. done. Qed.

(** So does adopting a branch under the name of a trunk branch: in a
    repository that has no local [main], [main] can be adopted on [main],
    and its record is its own parent although the walk from it stops at
    once, its parent being a trunk branch. *)
Example adopt_trunk_self_parent :
  let repo := mkRepo (Some "main") [] "origin" None
                     ∅ {[ "origin/main" := "c1" ]} [] [] in
  let '(err, _, db') := createBranch repo db_empty "main" "main" in
  err = None
  ∧ branches db'
    = {[ "main" := mkBranch "main" (mkBranchState "main" true EmptyString) None ]}
  ∧ ancestor (branches db') "main" "main".
Proof.
  vm_compute. split; [done|]. split; [done|].
  exact (ancestor_parent _ "main" _ (lookup_singleton_eq _ _)).
Qed.

(** C2, amended. In every store reached from an empty one by successful
    adoptions of branches that are not trunk branches and have no record
    yet, and successful renames of branches that are not trunk branches to
    names that are not a trunk branch's and have no record yet: no record
    is stored under the name of a trunk branch, the walk along
    [parent.name] from any record ends at a trunk branch within as many
    hops as the store has records, and no record is its own ancestor. *)
Theorem forest_reachable repo db :
  reachable true repo db →
  trunkIsRoot repo (branches db) ∧ forest repo (branches db).
Proof.
  intros H. apply reachable_strict_invariant in H as (_ & Hroot & Hf).
  split; [done|]. split.
  - by apply endsAtTrunk_rooted.
  - by eapply rooted_acyclic.
Qed.

Lemma forest_reachable_witness :
  trunkIsRoot world_abc.1 (branches world_abc.2)
  ∧ forest world_abc.1 (branches world_abc.2).
Proof.
  apply forest_reachable. unfold world_abc, world_ab.
  apply reachable_rename.
  - apply reachable_adopt.
    + apply reachable_adopt.
      * by apply reach_empty.
      * intros _. split; reflexivity.
      * vm_compute. reflexivity.
    + intros _. split; vm_compute; reflexivity.
    + vm_compute. reflexivity.
  - intros _. exists "b", "c". vm_compute. done.
  - vm_compute. reflexivity.
Defined.

Example world_abc_store :
  branches world_abc.2
  = {[ "a" := mkBranch "a" (mkBranchState "main" true EmptyString) None;
       "c" := mkBranch "c" (mkBranchState "a" false "c1") None ]}.
Proof. vm_compute. reflexivity. Qed.

(** ** The rename argument, parsed *)

Lemma ContainsRune_Count s c :
  strings.ContainsRune s c = bool_decide (0 < strings.Count s c).
Proof.
  induction s as [|a s IH]; cbn; [done|].
  destruct (Ascii.eqb a c).
  - symmetry. apply bool_decide_eq_true_2. lia.
  - done.
Qed.

Lemma Cut_found s c before after :
  strings.Cut s c = (before, after, true) →
  s = before +:+ String c after
  ∧ strings.Count before c = 0
  ∧ strings.Count s c = S (strings.Count after c).
Proof.
  revert before. induction s as [|a s IH]; intros before; cbn; [discriminate|].
  destruct (Ascii.eqb a c) eqn:Hac.
  - apply Ascii.eqb_eq in Hac as ->. intros [= <- <-]. done.
  - destruct (strings.Cut s c) as [[b0 a0] [|]]; [|discriminate].
    intros [= <- <-]. destruct (IH b0 eq_refl) as (-> & Hb & Hc).
    cbn. rewrite Hac. done.
Qed.

Lemma Cut_missing s c :
  strings.Count s c = 0 → strings.Cut s c = (s, EmptyString, false).
Proof.
  induction s as [|a s IH]; cbn; [done|].
  destruct (Ascii.eqb a c); [discriminate|].
  intros Hc. by rewrite (IH Hc).
Qed.

Lemma Cut_present s c :
  0 < strings.Count s c →
  ∃ before after, strings.Cut s c = (before, after, true).
Proof.
  induction s as [|a s IH]; cbn; [lia|].
  destruct (Ascii.eqb a c); [eauto|].
  intros Hc. destruct (IH Hc) as (b0 & a0 & ->). eauto.
Qed.

(** X1. An argument with exactly one [:] is split at it, whatever branch is
    checked out (also on a detached HEAD): the two names contain no [:] and
    put back together around a [:] they are the argument. *)
Theorem moveNames_one_separator arg :
  strings.Count arg colon = 1 →
  ∃ old new,
    (∀ repo, moveNames repo arg = Some (old, new))
    ∧ arg = old +:+ String colon new
    ∧ strings.Count old colon = 0
    ∧ strings.Count new colon = 0.
Proof.
  intros Hc.
  destruct (Cut_present arg colon) as (old & new & Hcut); [lia|].
  destruct (Cut_found _ _ _ _ Hcut) as (Harg & Hold & Hcount).
  exists old, new. repeat split; try done; [|lia].
  intros repo. unfold moveNames.
  rewrite ContainsRune_Count, bool_decide_eq_true_2 by lia.
  by rewrite Hcut.
Qed.

Lemma moveNames_one_separator_witness :
  ∃ old new,
    (∀ repo, moveNames repo "feature-1:feature-1-renamed" = Some (old, new))
    ∧ "feature-1:feature-1-renamed" = old +:+ String colon new
    ∧ strings.Count old colon = 0
    ∧ strings.Count new colon = 0.
Proof. apply moveNames_one_separator. reflexivity. Defined.

Lemma moveNames_new_clean repo arg old new :
  ¬ 1 < strings.Count arg colon →
  moveNames repo arg = Some (old, new) →
  strings.Count new colon = 0.
Proof.
  intros Hc. unfold moveNames. rewrite ContainsRune_Count.
  case_bool_decide as Hpos.
  - destruct (strings.Cut arg colon) as [[b0 a0] found] eqn:Hcut.
    intros [= <- <-].
    destruct (Cut_present arg colon Hpos) as (b1 & a1 & Hcut').
    rewrite Hcut in Hcut'. injection Hcut' as <- <- ->.
    destruct (Cut_found _ _ _ _ Hcut) as (_ & _ & Hcount). lia.
  - destruct (CurrentBranchName repo); intros [= <- <-]. lia.
Qed.

Lemma restore_is_Some new l : ∀ m k,
  is_Some (m !! k) → is_Some (restore new m l !! k).
Proof.
  induction l as [|a l IH]; intros m k Hk; [done|].
  cbn. unfold restore in IH. apply IH.
  destruct (decide (Branch_Name (set_Parent_Name new a) = k)) as [<-|Hne].
  - rewrite lookup_insert_eq. eauto.
  - by rewrite lookup_insert_ne.
Qed.

Lemma stagedMove_new_and_old m old new cm :
  old ≠ new →
  is_Some (stagedMove m old new (set_Name new cm) !! new)
  ∧ stagedMove m old new (set_Name new cm) !! old = None.
Proof.
  intros Hne. unfold stagedMove. cbn zeta. split.
  - rewrite lookup_delete_ne by done.
    apply restore_is_Some. cbn [set_Name Branch_Name].
    rewrite lookup_insert_eq. eauto.
  - apply lookup_delete_eq.
Qed.

(** X2. After a successful rename there is a record under the new name,
    the new name contains no [:] and differs from the old one, and there is
    no record under the old name. *)
Theorem branchMove_new_name repo db arg force repo' db' :
  branchMove repo db arg force = (None, repo', db') →
  ∃ old new,
    moveNames repo arg = Some (old, new)
    ∧ old ≠ new
    ∧ strings.Count new colon = 0
    ∧ is_Some (branches db' !! new)
    ∧ branches db' !! old = None.
Proof.
  intros Hrun.
  assert (¬ 1 < strings.Count arg colon) as Hc.
  { intros Hc. rewrite branchMove_malformed in Hrun by done. discriminate. }
  apply branchMove_success in Hrun
    as (old & new & cm & Hn & Hne & _ & _ & Hout).
  apply moveOutcome_success in Hout as (-> & _ & _).
  cbn [branches].
  destruct (stagedMove_new_and_old (branches db) old new
              (set_PullRequest None cm) Hne) as [Hrec Hgone].
  exists old, new. split; [done|]. split; [done|]. split; [|done].
  by eapply moveNames_new_clean.
Qed.

Lemma branchMove_new_name_witness :
  ∃ old new,
    moveNames repo_stack "feature-1-renamed" = Some (old, new)
    ∧ old ≠ new
    ∧ strings.Count new colon = 0
    ∧ is_Some (branches
                 (branchMove repo_stack db_stack "feature-1-renamed" false).2
                 !! new)
    ∧ branches (branchMove repo_stack db_stack "feature-1-renamed" false).2
        !! old = None.
Proof.
  apply (branchMove_new_name repo_stack db_stack "feature-1-renamed" false
           (branchMove repo_stack db_stack "feature-1-renamed" false).1.2).
  vm_compute. reflexivity.
Defined.

(** ** Adoption, path by path *)

(** What a successful adoption went through. *)
Lemma createBranch_success repo db name parent repo' db' :
  createBranch repo db name parent = (None, repo', db') →
  ∃ d P isTrunk head start commit,
    DefaultBranch repo = Some d
    ∧ resolveParent repo d parent = Some P
    ∧ IsTrunkBranch repo P = Some isTrunk
    ∧ (if isTrunk : bool
       then head = EmptyString ∧ start = GetRemoteName repo +:+ "/" +:+ d
       else RevParse repo P = Some head ∧ start = P
            ∧ is_Some (branches db !! P))
    ∧ RevParse repo start = Some commit
    ∧ CheckoutBranch repo name true commit = (true, repo')
    ∧ commitFails db = false
    ∧ db' = mkDB (<[name := mkBranch name (mkBranchState P isTrunk head) None]>
                    (branches db))
                 false TxCommitted.
Proof.
  intros Hrun.
  destruct (DefaultBranch repo) as [d|] eqn:Hd.
  2: { rewrite createBranch_no_default in Hrun by done. discriminate. }
  destruct (resolveParent repo d parent) as [P|] eqn:Hp.
  2: { rewrite (createBranch_no_parent _ _ _ _ d) in Hrun by done.
       discriminate. }
  destruct (IsTrunkBranch repo P) as [isTrunk|] eqn:Ht.
  2: { rewrite (createBranch_trunk_unknown _ _ _ _ d P) in Hrun by done.
       discriminate. }
  assert (∀ head start,
            adoptOutcome repo db name P isTrunk head start = (None, repo', db') →
            ∃ commit,
              RevParse repo start = Some commit
              ∧ CheckoutBranch repo name true commit = (true, repo')
              ∧ commitFails db = false
              ∧ db' = mkDB (<[name := mkBranch name
                                        (mkBranchState P isTrunk head) None]>
                              (branches db))
                           false TxCommitted) as Htail.
  { intros head start. unfold adoptOutcome.
    destruct (RevParse repo start) as [commit|] eqn:Hs; [|discriminate].
    destruct (CheckoutBranch repo name true commit) as [[|] r1] eqn:Hco;
      [|discriminate].
    destruct (commitFails db) eqn:Hcf; [discriminate|].
    intros [= <- <-]. exists commit. done. }
  destruct isTrunk.
  - rewrite (createBranch_trunk _ _ _ _ d P) in Hrun by done.
    destruct (Htail _ _ Hrun) as (commit & ? & ? & ? & ?).
    exists d, P, true, EmptyString, (GetRemoteName repo +:+ "/" +:+ d), commit.
    done.
  - destruct (RevParse repo P) as [head|] eqn:Hr.
    2: { rewrite (createBranch_no_head _ _ _ _ d P) in Hrun by done.
         discriminate. }
    destruct (branches db !! P) as [pb|] eqn:Hb.
    2: { rewrite (createBranch_not_adopted _ _ _ _ d P head) in Hrun by done.
         discriminate. }
    rewrite (createBranch_stacked _ _ _ _ d P head) in Hrun
      by (by rewrite ?Hb).
    destruct (Htail _ _ Hrun) as (commit & ? & ? & ? & ?).
    exists d, P, false, head, P, commit. rewrite Hb. done.
Qed.

(** X3. A successful adoption on a parent that is not a trunk branch: the
    parent has a record, the new branch is checked out and points at the
    commit the parent pointed at, and that same commit is the head recorded
    in the new record, whose trunk flag is off and which has no pull
    request. *)
Theorem createBranch_on_branch repo db branchName parent d P repo' db' :
  DefaultBranch repo = Some d →
  resolveParent repo d parent = Some P →
  IsTrunkBranch repo P = Some false →
  createBranch repo db branchName parent = (None, repo', db') →
  ∃ head,
    RevParse repo P = Some head
    ∧ is_Some (branches db !! P)
    ∧ heads repo' !! branchName = Some head
    ∧ currentBranch repo' = Some branchName
    ∧ branches db' !! branchName
      = Some (mkBranch branchName (mkBranchState P false head) None).
Proof.
  intros Hd Hp Ht Hrun.
  apply createBranch_success in Hrun
    as (d' & P' & isTrunk & head & start & commit
        & Hd' & Hp' & Ht' & Hkind & Hstart & Hco & _ & ->).
  rewrite Hd in Hd'. injection Hd' as <-.
  rewrite Hp in Hp'. injection Hp' as <-.
  rewrite Ht in Ht'. injection Ht' as <-.
  destruct Hkind as (Hhead & -> & Hrec).
  rewrite Hhead in Hstart. injection Hstart as <-.
  apply CheckoutBranch_new in Hco as (_ & Hok & _).
  destruct (Hok eq_refl) as [-> ->].
  exists head. rewrite lookup_insert_eq. cbn. rewrite lookup_insert_eq. done.
Qed.

Lemma createBranch_on_branch_witness :
  ∃ head,
    RevParse repo_stack "feature-1" = Some head
    ∧ is_Some (branches db_stack !! "feature-1")
    ∧ heads (createBranch repo_stack db_stack "feature-3" EmptyString).1.2
        !! "feature-3" = Some head
    ∧ currentBranch (createBranch repo_stack db_stack "feature-3" EmptyString).1.2
      = Some "feature-3"
    ∧ branches (createBranch repo_stack db_stack "feature-3" EmptyString).2
        !! "feature-3"
      = Some (mkBranch "feature-3" (mkBranchState "feature-1" false head) None).
Proof.
  apply (createBranch_on_branch repo_stack db_stack "feature-3" EmptyString
           "main" "feature-1").
  - reflexivity.
  - reflexivity.
  - reflexivity.
  - vm_compute. reflexivity.
Defined.

(** X4. A successful adoption touches nothing else: every record under
    another name is the one that was there, every other local branch points
    where it pointed, the remote-tracking revisions are the same, and the
    transaction is committed. *)
Theorem createBranch_frame repo db branchName parent repo' db' :
  createBranch repo db branchName parent = (None, repo', db') →
  (∀ k, k ≠ branchName → branches db' !! k = branches db !! k)
  ∧ (∀ k, k ≠ branchName → heads repo' !! k = heads repo !! k)
  ∧ otherRevs repo' = otherRevs repo
  ∧ heads repo !! branchName = None
  ∧ tx db' = TxCommitted.
Proof.
  intros Hrun.
  apply createBranch_success in Hrun
    as (d & P & isTrunk & head & start & commit
        & _ & _ & _ & _ & _ & Hco & _ & ->).
  unfold CheckoutBranch in Hco.
  destruct (fails repo OpCheckoutBranch); [discriminate|].
  destruct (heads repo !! branchName) eqn:Hfree; [discriminate|].
  injection Hco as <-. cbn.
  repeat split; try done; intros k Hk; by rewrite lookup_insert_ne.
Qed.

Lemma createBranch_frame_witness :
  (∀ k, k ≠ "feature-3" →
        branches (createBranch repo_stack db_stack "feature-3" EmptyString).2 !! k
        = branches db_stack !! k)
  ∧ (∀ k, k ≠ "feature-3" →
          heads (createBranch repo_stack db_stack "feature-3" EmptyString).1.2 !! k
          = heads repo_stack !! k)
  ∧ otherRevs (createBranch repo_stack db_stack "feature-3" EmptyString).1.2
    = otherRevs repo_stack
  ∧ heads repo_stack !! "feature-3" = None
  ∧ tx (createBranch repo_stack db_stack "feature-3" EmptyString).2 = TxCommitted.
Proof.
  apply (createBranch_frame repo_stack db_stack "feature-3" EmptyString).
  vm_compute. reflexivity.
Defined.

(** ** What the operations ask of Git, and what a failure leaves behind *)

Lemma adoptOutcome_journal repo db name P isTrunk head start :
  journal (adoptOutcome repo db name P isTrunk head start).1.2 = journal repo
  ∨ ∃ commit,
      journal (adoptOutcome repo db name P isTrunk head start).1.2
      = (journal repo ++ [CallCheckoutBranch name true commit])%list.
Proof.
  unfold adoptOutcome.
  destruct (RevParse repo start) as [commit|]; [|by left].
  destruct (CheckoutBranch repo name true commit) as [ok r1] eqn:Hco.
  apply CheckoutBranch_new in Hco as (Hj & _ & _).
  right. exists commit. destruct ok; [destruct (commitFails db)|]; exact Hj.
Qed.

(** X5. Whatever its outcome, an adoption asks Git for at most one change,
    the creating checkout of the new branch: it never deletes a branch and
    never checks another branch out (the cleanup registered on lines
    185-200 does not run on any path). *)
Theorem createBranch_single_checkout repo db branchName parent :
  journal (createBranch repo db branchName parent).1.2 = journal repo
  ∨ ∃ commit,
      journal (createBranch repo db branchName parent).1.2
      = (journal repo ++ [CallCheckoutBranch branchName true commit])%list.
Proof.
  destruct (createBranch_cases repo db branchName parent)
    as [(e & db' & -> & _)
       |(d & P & isTrunk & head & start & _ & _ & _ & _ & ->)].
  - by left.
  - apply adoptOutcome_journal.
Qed.

(** The paths of [createBranch] again, with the errors of the early ones. *)
Lemma createBranch_early_or_adopt repo db name parent :
  (∃ e db', createBranch repo db name parent = (Some e, repo, db')
            ∧ (db' = db ∨ db' = aborted db) ∧ e ≠ CommitError)
  ∨ (∃ P isTrunk head start,
        createBranch repo db name parent
        = adoptOutcome repo db name P isTrunk head start).
Proof.
  destruct (DefaultBranch repo) as [d|] eqn:Hd.
  2: { left. rewrite createBranch_no_default by done. eauto 10. }
  destruct (resolveParent repo d parent) as [P|] eqn:Hp.
  2: { left. rewrite (createBranch_no_parent _ _ _ _ d) by done. eauto 10. }
  destruct (IsTrunkBranch repo P) as [[|]|] eqn:Ht.
  3: { left. rewrite (createBranch_trunk_unknown _ _ _ _ d P) by done.
       eauto 10. }
  { right. rewrite (createBranch_trunk _ _ _ _ d P) by done. eauto 10. }
  destruct (RevParse repo P) as [head|] eqn:Hr.
  2: { left. rewrite (createBranch_no_head _ _ _ _ d P) by done. eauto 10. }
  destruct (branches db !! P) as [pb|] eqn:Hb.
  2: { left. rewrite (createBranch_not_adopted _ _ _ _ d P head) by done.
       eauto 10. }
  right. rewrite (createBranch_stacked _ _ _ _ d P head) by (by rewrite ?Hb).
  eauto 10.
Qed.

(** X6. An adoption that fails never changes the committed records. Unless
    the failure is that of the commit itself, Git's branches and the
    checked-out branch are also the ones before, and the transaction is
    aborted (or was never opened); a failed commit leaves the transaction
    open. *)
Theorem createBranch_failure repo db branchName parent e repo' db' :
  createBranch repo db branchName parent = (Some e, repo', db') →
  branches db' = branches db
  ∧ (e ≠ CommitError →
     heads repo' = heads repo ∧ currentBranch repo' = currentBranch repo
     ∧ (db' = db ∨ db' = aborted db))
  ∧ (e = CommitError → ∃ staged, tx db' = TxOpen staged).
Proof.
  intros Hrun.
  destruct (createBranch_early_or_adopt repo db branchName parent)
    as [(e0 & db0 & Heq & Hdb & He)|(P & isTrunk & head & start & Heq)];
    rewrite Heq in Hrun.
  - injection Hrun as <- <- <-.
    assert (branches db0 = branches db) by (by destruct Hdb as [->| ->]).
    repeat split; done.
  - unfold adoptOutcome in Hrun.
    destruct (RevParse repo start) as [commit|].
    2: { injection Hrun as <- <- <-. repeat split; eauto. discriminate. }
    destruct (CheckoutBranch repo branchName true commit) as [ok r1] eqn:Hco.
    apply CheckoutBranch_new in Hco as (_ & _ & Hko).
    destruct ok.
    + destruct (commitFails db); [|discriminate].
      injection Hrun as <- <- <-. cbn.
      split; [done|]. split; [done | eauto].
    + injection Hrun as <- <- <-. destruct (Hko eq_refl) as [? ?].
      repeat split; eauto. discriminate.
Qed.

Lemma createBranch_failure_witness :
  branches (createBranch repo_untracked db_empty "feature-2" EmptyString).2
  = branches db_empty
  ∧ (errParentNotAdopted ≠ CommitError →
     heads (createBranch repo_untracked db_empty "feature-2" EmptyString).1.2
     = heads repo_untracked
     ∧ currentBranch
         (createBranch repo_untracked db_empty "feature-2" EmptyString).1.2
       = currentBranch repo_untracked
     ∧ ((createBranch repo_untracked db_empty "feature-2" EmptyString).2
        = db_empty
        ∨ (createBranch repo_untracked db_empty "feature-2" EmptyString).2
          = aborted db_empty))
  ∧ (errParentNotAdopted = CommitError →
     ∃ staged,
       tx (createBranch repo_untracked db_empty "feature-2" EmptyString).2
       = TxOpen staged).
Proof.
  apply (createBranch_failure repo_untracked db_empty "feature-2" EmptyString
           errParentNotAdopted
           (createBranch repo_untracked db_empty "feature-2" EmptyString).1.2).
  vm_compute. reflexivity.
Defined.

(** The paths of [branchMove]: an early refusal with nothing touched, or
    the staged writes and what follows them. *)
Lemma branchMove_early_or_move repo db arg force :
  (∃ e db', branchMove repo db arg force = (Some e, repo, db')
            ∧ (db' = db ∨ db' = aborted db) ∧ e ≠ CommitError)
  ∨ (∃ old new cm,
        moveNames repo arg = Some (old, new) ∧ old ≠ new
        ∧ metaOrDefault repo (branches db) old = Some cm
        ∧ (force = false → Branch_PullRequest cm = None)
        ∧ branchMove repo db arg force = moveOutcome repo db old new cm).
Proof.
  destruct (decide (1 < strings.Count arg colon)) as [Hc|Hc].
  { left. rewrite branchMove_malformed by done. eauto 10. }
  destruct (moveNames repo arg) as [[old new]|] eqn:Hn.
  2: { left. rewrite branchMove_no_current by done. eauto 10. }
  destruct (decide (old = new)) as [->|Hne].
  { left. rewrite (branchMove_self _ _ _ _ new) by done. eauto 10. }
  destruct (metaOrDefault repo (branches db) old) as [cm|] eqn:Hm.
  2: { left. rewrite (branchMove_no_default _ _ _ _ old new) by done.
       eauto 10. }
  destruct force.
  { right. exists old, new, cm.
    rewrite (branchMove_proceeds _ _ _ _ old new cm) by done. done. }
  destruct (Branch_PullRequest cm) as [pr|] eqn:Hpr.
  { left. rewrite (branchMove_guard _ _ _ old new cm pr) by done. eauto 10. }
  right. exists old, new, cm.
  rewrite (branchMove_proceeds _ _ _ _ old new cm) by done. done.
Qed.

Lemma Run_journal repo args ok repo' :
  Run repo args = (ok, repo') →
  journal repo' = (journal repo ++ [CallRun args])%list.
Proof.
  unfold Run, renameHead.
  repeat (case_match; try discriminate); by intros [= <- <-].
Qed.

(** X7. Whatever its outcome, a rename asks Git for at most one change,
    [git branch -m NEW] with the new name as its only name, and only after
    Git has said that the old branch exists. *)
Theorem branchMove_single_git_call repo db arg force :
  journal (branchMove repo db arg force).1.2 = journal repo
  ∨ ∃ old new,
      moveNames repo arg = Some (old, new)
      ∧ DoesBranchExist repo old = Some true
      ∧ journal (branchMove repo db arg force).1.2
        = (journal repo ++ [CallRun ["branch"; "-m"; new]])%list.
Proof.
  destruct (branchMove_early_or_move repo db arg force)
    as [(e & db' & -> & _)|(old & new & cm & Hn & _ & _ & _ & ->)].
  { by left. }
  unfold moveOutcome.
  destruct (DoesBranchExist repo old) as [[|]|] eqn:He.
  - right. exists old, new. split; [done|]. split; [done|].
    destruct (Run repo ["branch"; "-m"; new]) as [ok r1] eqn:Hr.
    apply Run_journal in Hr.
    destruct ok; [destruct (commitFails db)|]; exact Hr.
  - left. by destruct (commitFails db).
  - by left.
Qed.

(** X8. A rename that fails never changes the committed records. Unless
    the failure is that of the commit itself, Git's branches and the
    checked-out branch are also the ones before, and the transaction is
    aborted (or was never opened); a failed commit leaves the transaction
    open, after Git has already renamed the branch if it existed. *)
Theorem branchMove_failure_state repo db arg force e repo' db' :
  branchMove repo db arg force = (Some e, repo', db') →
  branches db' = branches db
  ∧ (e ≠ CommitError →
     heads repo' = heads repo ∧ currentBranch repo' = currentBranch repo
     ∧ (db' = db ∨ db' = aborted db))
  ∧ (e = CommitError →
     (∃ staged, tx db' = TxOpen staged)
     ∧ ∃ old new,
         moveNames repo arg = Some (old, new)
         ∧ (DoesBranchExist repo old = Some true →
            Run repo ["branch"; "-m"; new] = (true, repo'))).
Proof.
  intros Hrun.
  destruct (branchMove_early_or_move repo db arg force)
    as [(e0 & db0 & Heq & Hdb & He)|(old & new & cm & Hn & _ & _ & _ & Heq)];
    rewrite Heq in Hrun.
  - injection Hrun as <- <- <-.
    assert (branches db0 = branches db) by (by destruct Hdb as [->| ->]).
    repeat split; done.
  - unfold moveOutcome in Hrun.
    destruct (DoesBranchExist repo old) as [[|]|] eqn:He.
    + destruct (Run repo ["branch"; "-m"; new]) as [ok r1] eqn:Hr.
      destruct ok.
      * destruct (commitFails db); [|discriminate].
        injection Hrun as <- <- <-. cbn.
        split; [done|]. split; [done|]. intros _. split; [eauto|].
        exists old, new. done.
      * injection Hrun as <- <- <-. apply Run_failed in Hr as [? ?].
        split; [done|]. split; [eauto|]. discriminate.
    + destruct (commitFails db); [|discriminate].
      injection Hrun as <- <- <-. cbn.
      split; [done|]. split; [done|]. intros _. split; [eauto|].
      exists old, new. split; [done|]. congruence.
    + injection Hrun as <- <- <-.
      split; [done|]. split; [eauto|]. discriminate.
Qed.

(** [feature-2] is taken in Git: [git branch -m] refuses. *)
Lemma branchMove_failure_state_witness :
  let run := branchMove repo_stack db_stack "feature-1:feature-2" false in
  branches run.2 = branches db_stack
  ∧ (Wrap (GitError OpRun) "failed to rename Git branch" [] ≠ CommitError →
     heads run.1.2 = heads repo_stack
     ∧ currentBranch run.1.2 = currentBranch repo_stack
     ∧ (run.2 = db_stack ∨ run.2 = aborted db_stack))
  ∧ (Wrap (GitError OpRun) "failed to rename Git branch" [] = CommitError →
     (∃ staged, tx run.2 = TxOpen staged)
     ∧ ∃ old new,
         moveNames repo_stack "feature-1:feature-2" = Some (old, new)
         ∧ (DoesBranchExist repo_stack old = Some true →
            Run repo_stack ["branch"; "-m"; new] = (true, run.1.2))).
Proof.
  apply (branchMove_failure_state repo_stack db_stack "feature-1:feature-2"
           false).
  vm_compute. reflexivity.
Defined.

(** ** What a rename leaves alone *)

(** X9. After a successful rename on a store keyed by branch name, the
    names that have a record are the new name and the names that had one
    before other than the old name, and every record that is neither the
    renamed one, nor under the new name, nor a child of the old branch is
    the record it was. *)
Theorem branchMove_frame repo db arg force old new repo' db' :
  moveNames repo arg = Some (old, new) →
  keyed (branches db) →
  branchMove repo db arg force = (None, repo', db') →
  dom (branches db') = {[new]} ∪ (dom (branches db) ∖ {[old]})
  ∧ (∀ k c, k ≠ old → k ≠ new → parentName c ≠ old →
            branches db !! k = Some c → branches db' !! k = Some c)
  ∧ keyed (branches db').
Proof.
  intros Hn Hk Hrun.
  apply branchMove_success in Hrun
    as (old' & new' & cm & Hn' & Hne & _ & _ & Hout).
  rewrite Hn in Hn'. injection Hn' as <- <-.
  apply moveOutcome_success in Hout as (-> & _ & _). cbn [branches].
  split; [|split].
  - apply set_eq. intros k.
    rewrite elem_of_union, elem_of_singleton, elem_of_difference,
      not_elem_of_singleton, !elem_of_dom.
    rewrite stagedMove_lookup by done. cbn [set_Name Branch_Name].
    destruct (decide (k = old)) as [->|Hko].
    + split; [by intros [? ?] | intros [?|[_ ?]]; congruence].
    + rewrite fmap_is_Some. destruct (decide (k = new)) as [->|Hkn].
      * rewrite lookup_insert_eq. split; eauto.
      * rewrite lookup_insert_ne by done. split; [eauto|]. intros [?|[? _]]; done.
  - intros k c Hko Hkn Hp Hc. rewrite stagedMove_lookup by done.
    rewrite decide_False by done. cbn [set_Name Branch_Name].
    rewrite lookup_insert_ne by done. rewrite Hc. cbn.
    unfold reparent. by rewrite bool_decide_eq_false_2.
  - by apply stagedMove_keyed.
Qed.

Lemma branchMove_frame_witness :
  let run := branchMove repo_stack db_stack "feature-2:top" false in
  dom (branches run.2) = {[ "top" ]} ∪ (dom (branches db_stack) ∖ {[ "feature-2" ]})
  ∧ (∀ k c, k ≠ "feature-2" → k ≠ "top" → parentName c ≠ "feature-2" →
            branches db_stack !! k = Some c → branches run.2 !! k = Some c)
  ∧ keyed (branches run.2).
Proof.
  apply (branchMove_frame repo_stack db_stack "feature-2:top" false
           "feature-2" "top"
           (branchMove repo_stack db_stack "feature-2:top" false).1.2).
  - reflexivity.
  - apply keyed_db_stack.
  - vm_compute. reflexivity.
Defined.

(** X10. [force] only matters for a branch whose record carries a pull
    request: when the old branch has no record, or a record without a pull
    request, the rename returns the same error and leaves the same
    repository and database with and without it. *)
Theorem branchMove_force_irrelevant repo db arg :
  (∀ old new b,
      moveNames repo arg = Some (old, new) →
      branches db !! old = Some b → Branch_PullRequest b = None) →
  branchMove repo db arg false = branchMove repo db arg true.
Proof.
  intros Hpr.
  destruct (decide (1 < strings.Count arg colon)) as [Hc|Hc].
  { by rewrite !branchMove_malformed. }
  destruct (moveNames repo arg) as [[old new]|] eqn:Hn.
  2: { by rewrite !branchMove_no_current. }
  destruct (decide (old = new)) as [->|Hne].
  { by rewrite !(branchMove_self _ _ _ _ new). }
  destruct (metaOrDefault repo (branches db) old) as [cm|] eqn:Hm.
  2: { by rewrite !(branchMove_no_default _ _ _ _ old new). }
  rewrite !(branchMove_proceeds _ _ _ _ old new cm); try done.
  intros _. unfold metaOrDefault in Hm.
  destruct (branches db !! old) as [b|] eqn:Hb.
  - injection Hm as <-. by eapply Hpr.
  - destruct (DefaultBranch repo); [|done]. by injection Hm as <-.
Qed.

Lemma branchMove_force_irrelevant_witness :
  branchMove repo_stack db_stack "feature-1:bottom" false
  = branchMove repo_stack db_stack "feature-1:bottom" true.
Proof.
  apply branchMove_force_irrelevant.
  intros old new b [= <- <-] Hb. vm_compute in Hb. by injection Hb as <-.
Defined.

(** ** Renaming there and back *)

Lemma reparent_back a b c :
  parentName c ≠ b → reparent b a (reparent a b c) = c.
Proof.
  intros Hp. destruct c as [n [pn t h] pr]. unfold reparent, parentName in *.
  cbn in *. destruct (decide (pn = a)) as [->|Hpa].
  - rewrite (bool_decide_eq_true_2 (a = a)) by done. cbn.
    by rewrite bool_decide_eq_true_2.
  - rewrite (bool_decide_eq_false_2 (pn = a)) by done. cbn.
    by rewrite bool_decide_eq_false_2.
Qed.

Lemma renamed_back a b ra :
  Branch_Name ra = a → Branch_PullRequest ra = None → parentName ra ≠ b →
  reparent b a
    (set_Name a
       (set_PullRequest None
          (reparent a b (set_Name b (set_PullRequest None ra)))))
  = ra.
Proof.
  intros Hn Hpr Hp. destruct ra as [n [pn t h] pr].
  unfold reparent, parentName in *. cbn in *. subst n pr.
  destruct (decide (pn = a)) as [->|Hpa].
  - rewrite (bool_decide_eq_true_2 (a = a)) by done. cbn.
    by rewrite bool_decide_eq_true_2.
  - rewrite (bool_decide_eq_false_2 (pn = a)) by done. cbn.
    by rewrite bool_decide_eq_false_2.
Qed.

(** X11. Renaming a tracked branch to a name nobody uses and then back
    restores the committed records exactly, provided the record carried no
    pull request (a rename clears it) and no record named the intermediate
    name as its parent: the record gets its name back and every child its
    parent name. *)
Theorem branchMove_round_trip
    repo db arg1 force1 repo1 db1 arg2 force2 repo2 db2 a b ra :
  keyed (branches db) →
  branches db !! a = Some ra →
  Branch_PullRequest ra = None →
  branches db !! b = None →
  (∀ k c, branches db !! k = Some c → parentName c ≠ b) →
  moveNames repo arg1 = Some (a, b) →
  branchMove repo db arg1 force1 = (None, repo1, db1) →
  moveNames repo1 arg2 = Some (b, a) →
  branchMove repo1 db1 arg2 force2 = (None, repo2, db2) →
  branches db2 = branches db.
Proof.
  intros Hk Ha Hpr Hb Hnob Hn1 Hrun1 Hn2 Hrun2.
  apply branchMove_success in Hrun1
    as (a' & b' & cm1 & Hn1' & Hne & Hm1 & _ & Hout1).
  rewrite Hn1 in Hn1'. injection Hn1' as <- <-.
  rewrite (metaOrDefault_tracked _ _ _ _ Ha) in Hm1. injection Hm1 as <-.
  apply moveOutcome_success in Hout1 as (-> & _ & _).
  apply branchMove_success in Hrun2
    as (b' & a' & cm2 & Hn2' & _ & Hm2 & _ & Hout2).
  rewrite Hn2 in Hn2'. injection Hn2' as <- <-.
  cbn [branches] in Hm2.
  pose proof (stagedMove_keyed _ a b (set_Name b (set_PullRequest None ra)) Hk)
    as Hk1.
  rewrite (metaOrDefault_tracked _ _ _ _ (stagedMove_new _ a b _ Hk Hne)) in Hm2.
  injection Hm2 as <-.
  apply moveOutcome_success in Hout2 as (-> & _ & _). cbn [branches].
  apply map_eq. intros k.
  rewrite stagedMove_lookup by done. cbn [set_Name Branch_Name].
  destruct (decide (k = b)) as [->|Hkb]; [done|].
  destruct (decide (k = a)) as [->|Hka].
  - rewrite lookup_insert_eq, Ha. cbn. f_equal.
    apply renamed_back; [by apply Hk | done | by eapply Hnob].
  - rewrite lookup_insert_ne by done.
    rewrite stagedMove_lookup by done. rewrite decide_False by done.
    cbn [set_Name Branch_Name]. rewrite lookup_insert_ne by done.
    destruct (branches db !! k) as [c|] eqn:Hc; [|done]. cbn. f_equal.
    apply reparent_back. by eapply Hnob.
Qed.

Lemma branchMove_round_trip_witness :
  branches
    (rename (rename (repo_stack, db_stack) "feature-1:bottom" false)
            "bottom:feature-1" false).2
  = branches db_stack.
Proof.
  apply (branchMove_round_trip repo_stack db_stack "feature-1:bottom" false
           (rename (repo_stack, db_stack) "feature-1:bottom" false).1
           (rename (repo_stack, db_stack) "feature-1:bottom" false).2
           "bottom:feature-1" false
           (rename (rename (repo_stack, db_stack) "feature-1:bottom" false)
                   "bottom:feature-1" false).1
           (rename (rename (repo_stack, db_stack) "feature-1:bottom" false)
                   "bottom:feature-1" false).2
           "feature-1" "bottom" feature1).
  - apply keyed_db_stack.
  - reflexivity.
  - reflexivity.
  - reflexivity.
  - intros k c Hc Hp.
    destruct (decide (k = "feature-1")) as [->|H1].
    { vm_compute in Hc. injection Hc as <-. discriminate Hp. }
    destruct (decide (k = "feature-2")) as [->|H2].
    { vm_compute in Hc. injection Hc as <-. discriminate Hp. }
    unfold db_stack in Hc. cbn [branches] in Hc.
    rewrite lookup_insert_ne in Hc by done.
    by rewrite lookup_singleton_ne in Hc.
  - reflexivity.
  - vm_compute. reflexivity.
  - reflexivity.
  - vm_compute. reflexivity.
Defined.

(** ** The shape of the records the operations write *)

(** X12. In every store reached from an empty one by successful adoptions
    and renames, whatever names they use, every record sits under its own
    name and every record whose parent is flagged as trunk has an empty
    head commit. *)
Theorem reachable_records_shape repo db :
  reachable false repo db →
  keyed (branches db)
  ∧ ∀ k b, branches db !! k = Some b → trunkHasNoHead b.
Proof.
  induction 1 as [repo db Hempty
                 |repo db name parent repo' db' _ [Hk Hshape] _ Hrun
                 |repo db arg force repo' db' _ [Hk Hshape] _ Hrun].
  - rewrite Hempty. split; [apply keyed_empty|].
    intros k b Hb. by rewrite lookup_empty in Hb.
  - apply createBranch_success in Hrun
      as (d & P & isTrunk & head & start & commit
          & _ & _ & _ & Hkind & _ & _ & _ & ->).
    cbn [branches]. split.
    + by apply (keyed_insert _ (mkBranch name (mkBranchState P isTrunk head) None)).
    + intros k b. destruct (decide (k = name)) as [->|Hne].
      * rewrite lookup_insert_eq. intros [= <-]. unfold trunkHasNoHead. cbn.
        intros ->. by destruct Hkind.
      * rewrite lookup_insert_ne by done. apply Hshape.
  - apply branchMove_success in Hrun
      as (old & new & cm & _ & Hne & Hm & _ & Hout).
    apply moveOutcome_success in Hout as (-> & _ & _). cbn [branches].
    split; [by apply stagedMove_keyed|].
    assert (trunkHasNoHead cm) as Hcm.
    { unfold metaOrDefault in Hm.
      destruct (branches db !! old) as [b0|] eqn:Hb0.
      - injection Hm as <-. by eapply Hshape.
      - destruct (DefaultBranch repo); [|done]. by injection Hm as <-. }
    intros k b. rewrite stagedMove_lookup by done.
    case_decide; [done|]. cbn [set_Name Branch_Name].
    intros Hb. apply fmap_Some in Hb as (b0 & Hb0 & ->).
    unfold trunkHasNoHead.
    destruct (reparent_Trunk_Head old new b0) as [-> ->].
    destruct (decide (k = new)) as [->|Hkn].
    + rewrite lookup_insert_eq in Hb0. injection Hb0 as <-. exact Hcm.
    + rewrite lookup_insert_ne in Hb0 by done. by eapply Hshape.
Qed.

Lemma reachable_records_shape_witness :
  keyed (branches world_abc.2)
  ∧ ∀ k b, branches world_abc.2 !! k = Some b → trunkHasNoHead b.
Proof.
  apply (reachable_records_shape world_abc.1). unfold world_abc, world_ab.
  apply reachable_rename.
  - apply reachable_adopt.
    + apply reachable_adopt.
      * by apply reach_empty.
      * discriminate.
      * vm_compute. reflexivity.
    + discriminate.
    + vm_compute. reflexivity.
  - discriminate.
  - vm_compute. reflexivity.
Defined.

(** ** How the parent argument is read *)

Lemma stripPrefix_append p s : strings.stripPrefix (p +:+ s) p = Some s.
Proof.
  induction p as [|c p IH]; simpl; [by destruct s|].
  by rewrite Ascii.eqb_refl.
Qed.

Lemma stripPrefix_Some s p rest :
  strings.stripPrefix s p = Some rest → s = p +:+ rest.
Proof.
  revert s. induction p as [|c p IH]; intros s.
  - destruct s; simpl; by intros [= <-].
  - destruct s as [|a s]; simpl; [discriminate|].
    destruct (Ascii.eqb c a) eqn:Hca; [|discriminate].
    apply Ascii.eqb_eq in Hca as ->. intros H. by rewrite (IH _ H).
Qed.

Lemma append_String c r s : String c r +:+ s = String c (r +:+ s).
Proof. reflexivity. Qed.

Lemma append_assoc_slash r s : (r +:+ "/") +:+ s = r +:+ String "/" s.
Proof.
  induction r as [|c r IH]; [reflexivity|].
  rewrite !append_String. by f_equal.
Qed.

Lemma append_cancel p s1 s2 : p +:+ s1 = p +:+ s2 → s1 = s2.
Proof.
  induction p as [|c p IH]; [done|].
  rewrite !append_String. intros [= H]. by apply IH.
Qed.

Lemma append_slash_nonempty r s : r +:+ String "/" s ≠ EmptyString.
Proof. by destruct r. Qed.

(** A parent written with the remote name in front. *)
Lemma resolveParent_remote repo d x :
  x ≠ "HEAD" →
  resolveParent repo d (GetRemoteName repo +:+ "/" +:+ x) = Some x.
Proof.
  intros Hx. unfold resolveParent. cbn zeta.
  change (GetRemoteName repo +:+ "/" +:+ x)
    with (GetRemoteName repo +:+ String "/" x).
  rewrite bool_decide_eq_false_2 by apply append_slash_nonempty.
  rewrite bool_decide_eq_false_2.
  - unfold strings.TrimPrefix.
    by rewrite <- append_assoc_slash, stripPrefix_append.
  - intros Heq. apply append_cancel in Heq. congruence.
Qed.

(** A parent written as it is called locally. *)
Lemma resolveParent_local repo d x :
  x ≠ EmptyString →
  strings.stripPrefix x (GetRemoteName repo +:+ "/") = None →
  resolveParent repo d x = Some x.
Proof.
  intros Hx Hlocal. unfold resolveParent. cbn zeta.
  rewrite bool_decide_eq_false_2 by done.
  rewrite bool_decide_eq_false_2.
  - unfold strings.TrimPrefix. by rewrite Hlocal.
  - intros ->.
    change (GetRemoteName repo +:+ "/HEAD")
      with (GetRemoteName repo +:+ String "/" "HEAD") in Hlocal.
    rewrite <- append_assoc_slash, stripPrefix_append in Hlocal. done.
Qed.

(** The remote's [HEAD] as parent. *)
Lemma resolveParent_remote_HEAD repo d :
  strings.stripPrefix d (GetRemoteName repo +:+ "/") = None →
  resolveParent repo d (GetRemoteName repo +:+ "/HEAD") = Some d.
Proof.
  intros Hlocal. unfold resolveParent. cbn zeta.
  change (GetRemoteName repo +:+ "/HEAD")
    with (GetRemoteName repo +:+ String "/" "HEAD").
  rewrite bool_decide_eq_false_2 by apply append_slash_nonempty.
  rewrite bool_decide_eq_true_2 by done.
  unfold strings.TrimPrefix. by rewrite Hlocal.
Qed.

Lemma createBranch_parent_resolution repo db name parent1 parent2 :
  (∀ d, DefaultBranch repo = Some d →
        resolveParent repo d parent1 = resolveParent repo d parent2) →
  createBranch repo db name parent1 = createBranch repo db name parent2.
Proof.
  intros Hsame. unfold createBranch.
  destruct (DefaultBranch repo) as [d|] eqn:Hd; [|done].
  specialize (Hsame d eq_refl).
  unfold deferred, createBranch_body.
  unfold bind at 1. unfold wrapIf at 1, query at 1. cbn [st_repo].
  symmetry.
  unfold bind at 1. unfold wrapIf at 1, query at 1. cbn [st_repo].
  by rewrite Hsame.
Qed.

(** X13. A parent given with the remote name in front ([origin/x]) is the
    parent [x]: the adoption returns the same error and leaves the same
    repository and database as with [x] itself, for every [x] other than
    [HEAD] that is not empty and does not itself start with the remote
    name. *)
Theorem createBranch_remote_parent repo db branchName x :
  x ≠ EmptyString →
  x ≠ "HEAD" →
  strings.stripPrefix x (GetRemoteName repo +:+ "/") = None →
  createBranch repo db branchName (GetRemoteName repo +:+ "/" +:+ x)
  = createBranch repo db branchName x.
Proof.
  intros Hx Hhead Hlocal. apply createBranch_parent_resolution. intros d _.
  by rewrite resolveParent_remote, resolveParent_local.
Qed.

Lemma createBranch_remote_parent_witness :
  createBranch repo_stack db_stack "feature-3" "origin/feature-2"
  = createBranch repo_stack db_stack "feature-3" "feature-2".
Proof.
  apply (createBranch_remote_parent repo_stack db_stack "feature-3" "feature-2").
  - discriminate.
  - discriminate.
  - reflexivity.
Defined.

(** X14. The remote's [HEAD] ([origin/HEAD]) as parent is the default
    branch as parent: the adoption returns the same error and leaves the
    same repository and database as with the default branch named
    outright (a default branch name that is not empty and does not start
    with the remote name). *)
Theorem createBranch_remote_HEAD_parent repo db branchName d :
  DefaultBranch repo = Some d →
  d ≠ EmptyString →
  strings.stripPrefix d (GetRemoteName repo +:+ "/") = None →
  createBranch repo db branchName (GetRemoteName repo +:+ "/HEAD")
  = createBranch repo db branchName d.
Proof.
  intros Hd Hne Hlocal. apply createBranch_parent_resolution.
  intros d' Hd'. rewrite Hd in Hd'. injection Hd' as <-.
  by rewrite resolveParent_remote_HEAD, resolveParent_local.
Qed.

Lemma createBranch_remote_HEAD_parent_witness :
  createBranch repo_stack db_stack "feature-3" "origin/HEAD"
  = createBranch repo_stack db_stack "feature-3" "main".
Proof.
  apply (createBranch_remote_HEAD_parent repo_stack db_stack "feature-3" "main").
  - reflexivity.
  - discriminate.
  - reflexivity.
Defined.

(** ** Renaming the checked-out branch *)

Lemma Run_branch_m_state repo new repo' :
  Run repo ["branch"; "-m"; new] = (true, repo') →
  ∃ cur commit,
    currentBranch repo = Some cur ∧ heads repo !! cur = Some commit
    ∧ (cur = new ∧ heads repo' = heads repo
                 ∧ currentBranch repo' = currentBranch repo
       ∨ cur ≠ new ∧ heads repo !! new = None
         ∧ heads repo' = <[new := commit]> (delete cur (heads repo))
         ∧ currentBranch repo' = Some new).
Proof.
  unfold Run. destruct (fails repo OpRun); [discriminate|].
  destruct (currentBranch repo) as [cur|] eqn:Hcur; [|discriminate].
  unfold renameHead.
  destruct (heads repo !! cur) as [commit|] eqn:Hh; [|discriminate].
  case_bool_decide as Heq.
  - intros [= <-]. exists cur, commit. split; [done|]. split; [done|].
    left. done.
  - destruct (heads repo !! new) eqn:Hnew; [discriminate|].
    intros [= <-]. exists cur, commit. split; [done|]. split; [done|].
    right. cbn. rewrite Hcur. by rewrite bool_decide_eq_true_2.
Qed.

(** X15. The plain form of the rename, an argument without [:], renames
    the branch that is checked out, and there metadata and Git agree: after
    a successful run the record is under the new name and gone from the old
    one, and if the branch existed in Git it now has the new name there,
    points at the same commit and is still the one checked out. *)
Theorem branchMove_checked_out repo db arg force repo' db' :
  strings.Count arg colon = 0 →
  branchMove repo db arg force = (None, repo', db') →
  ∃ old,
    currentBranch repo = Some old
    ∧ old ≠ arg
    ∧ is_Some (branches db' !! arg)
    ∧ branches db' !! old = None
    ∧ (is_Some (heads repo !! old) →
       heads repo' !! old = None
       ∧ heads repo' !! arg = heads repo !! old
       ∧ currentBranch repo' = Some arg)
    ∧ (heads repo !! old = None → repo' = repo).
Proof.
  intros Hc Hrun.
  destruct (branchMove_success _ _ _ _ _ _ Hrun)
    as (old & new & cm & Hn & Hne & _ & _ & Hout).
  pose proof Hn as Hn0. unfold moveNames in Hn0.
  rewrite ContainsRune_Count, bool_decide_eq_false_2 in Hn0 by lia.
  unfold CurrentBranchName in Hn0.
  destruct (currentBranch repo) as [cur|] eqn:Hcur; [|discriminate].
  injection Hn0 as <- <-.
  pose proof (branchMove_git_rename _ _ _ _ _ _ _ _ Hn Hrun) as Hgit.
  apply moveOutcome_success in Hout as (Hdb & _ & Hcases).
  destruct (stagedMove_new_and_old (branches db) cur arg
              (set_PullRequest None cm) Hne) as [Hrec Hgone].
  exists cur.
  split; [done|]. split; [done|].
  split; [by rewrite Hdb|]. split; [by rewrite Hdb|]. split.
  - intros Hold. destruct (Hgit Hold) as [Hsame _].
    destruct (Hsame Hcur) as [Hgone' Hmoved].
    split; [done|]. split; [done|].
    destruct Hcases as [[_ Hr]|[He _]].
    + apply Run_branch_m_state in Hr
        as (cur' & commit & Hcur' & _ & [(-> & _)|(_ & _ & _ & ->)]);
        [|done].
      rewrite Hcur in Hcur'. by injection Hcur' as ->.
    + unfold DoesBranchExist in He.
      destruct (fails repo OpDoesBranchExist); [discriminate|].
      rewrite bool_decide_eq_true_2 in He by done. discriminate.
  - intros Hold. destruct Hcases as [[He _]|[_ ->]]; [|done].
    unfold DoesBranchExist in He.
    destruct (fails repo OpDoesBranchExist); [discriminate|].
    rewrite Hold in He. rewrite bool_decide_eq_false_2 in He; [discriminate|].
    by intros [? ?].
Qed.

Lemma branchMove_checked_out_witness :
  let run := branchMove repo_stack db_stack "feature-1-renamed" false in
  ∃ old,
    currentBranch repo_stack = Some old
    ∧ old ≠ "feature-1-renamed"
    ∧ is_Some (branches run.2 !! "feature-1-renamed")
    ∧ branches run.2 !! old = None
    ∧ (is_Some (heads repo_stack !! old) →
       heads run.1.2 !! old = None
       ∧ heads run.1.2 !! "feature-1-renamed" = heads repo_stack !! old
       ∧ currentBranch run.1.2 = Some "feature-1-renamed")
    ∧ (heads repo_stack !! old = None → run.1.2 = repo_stack).
Proof.
  apply (branchMove_checked_out repo_stack db_stack "feature-1-renamed" false).
  - reflexivity.
  - vm_compute. reflexivity.
Defined.

(** ** Adopting and renaming right away *)

(** X16. Adopting a branch under one name and renaming it at once with the
    plain form of the rename comes to the same as adopting it under the
    final name: the same records are committed, and Git has the same
    branches and the same branch checked out. This holds when the first
    name had no record, no record named it as parent and it is not a trunk
    branch. *)
Theorem createBranch_then_branchMove
    repo db a parent repo1 db1 b force repo2 db2 :
  keyed (branches db) →
  branches db !! a = None →
  (∀ k c, branches db !! k = Some c → parentName c ≠ a) →
  isTrunkName repo a = false →
  strings.Count b colon = 0 →
  createBranch repo db a parent = (None, repo1, db1) →
  branchMove repo1 db1 b force = (None, repo2, db2) →
  ∃ repo2',
    createBranch repo db b parent = (None, repo2', db2)
    ∧ heads repo2' = heads repo2
    ∧ currentBranch repo2' = currentBranch repo2.
Proof.
  intros Hk Ha Hnochild Hnotrunk Hcolon Hadopt Hmove.
  destruct (createBranch_success _ _ _ _ _ _ Hadopt)
    as (d & P & isTrunk & head & start & commit
        & Hd & Hp & Ht & Hkind & Hstart & Hco & Hcf & ->).
  pose proof (CheckoutBranch_new _ _ _ _ _ Hco) as (_ & Hok & _).
  destruct (Hok eq_refl) as [Hheads1 Hcur1].
  assert (heads repo !! a = None ∧ fails repo OpCheckoutBranch = false)
    as [Hfree Hnofault].
  { unfold CheckoutBranch in Hco.
    destruct (fails repo OpCheckoutBranch); [discriminate|].
    by destruct (heads repo !! a). }
  assert (P ≠ a) as HPa.
  { intros ->. destruct isTrunk.
    - apply IsTrunkBranch_Some in Ht. congruence.
    - destruct Hkind as (_ & _ & [? ?]). congruence. }
  apply branchMove_success in Hmove
    as (old' & new' & cm & Hn & Hne & Hm & _ & Hout).
  assert (moveNames repo1 b = Some (a, b)) as Hn'.
  { unfold moveNames.
    rewrite ContainsRune_Count, bool_decide_eq_false_2 by lia.
    unfold CurrentBranchName. by rewrite Hcur1. }
  rewrite Hn' in Hn. injection Hn as <- <-.
  cbn [branches] in Hm.
  rewrite (metaOrDefault_tracked _ _ _ _ (lookup_insert_eq _ _ _)) in Hm.
  injection Hm as <-.
  apply moveOutcome_success in Hout as (-> & _ & [[_ Hr]|[He _]]).
  2: { unfold DoesBranchExist in He.
       destruct (fails repo1 OpDoesBranchExist); [discriminate|].
       rewrite bool_decide_eq_true_2 in He; [discriminate|].
       rewrite Hheads1, lookup_insert_eq. eauto. }
  apply Run_branch_m_state in Hr
    as (cur & commit' & Hcur & Hcommit
        & [(-> & _)|(_ & Hbfree & Hheads2 & Hcur2)]).
  { rewrite Hcur1 in Hcur. by injection Hcur as ->. }
  rewrite Hcur1 in Hcur. injection Hcur as <-.
  rewrite Hheads1, lookup_insert_eq in Hcommit. injection Hcommit as <-.
  rewrite Hheads1, lookup_insert_ne in Hbfree by done.
  assert (CheckoutBranch repo b true commit
          = (true, update repo (Some b) (<[b := commit]> (heads repo))
                     (CallCheckoutBranch b true commit))) as Hco'.
  { unfold CheckoutBranch. by rewrite Hnofault, Hbfree. }
  assert (adoptOutcome repo db b P isTrunk head start
          = (None,
             update repo (Some b) (<[b := commit]> (heads repo))
               (CallCheckoutBranch b true commit),
             mkDB (<[b := mkBranch b (mkBranchState P isTrunk head) None]>
                     (branches db))
                  false TxCommitted)) as Hdirect.
  { unfold adoptOutcome. by rewrite Hstart, Hco', Hcf. }
  eexists. split; [|split].
  - assert (createBranch repo db b parent
            = adoptOutcome repo db b P isTrunk head start) as ->.
    { destruct isTrunk.
      - destruct Hkind as [-> ->]. by apply (createBranch_trunk _ _ _ _ d P).
      - destruct Hkind as (Hhead & -> & Hrec).
        by apply (createBranch_stacked _ _ _ _ d P head). }
    rewrite Hdirect. f_equal. f_equal.
    apply map_eq. intros k.
    rewrite stagedMove_lookup
      by (by apply (keyed_insert _
                      (mkBranch a (mkBranchState P isTrunk head) None))).
    cbn [set_Name set_PullRequest Branch_Name Branch_Parent Branch_PullRequest
         branches].
    destruct (decide (k = a)) as [->|Hka].
    + rewrite lookup_insert_ne by done. by rewrite Ha.
    + destruct (decide (k = b)) as [->|Hkb].
      * rewrite !lookup_insert_eq. cbn. f_equal.
        unfold reparent. by rewrite bool_decide_eq_false_2.
      * rewrite !(lookup_insert_ne _ b) by done.
        rewrite lookup_insert_ne by done.
        destruct (branches db !! k) as [c|] eqn:Hc; [|done]. cbn. f_equal.
        unfold reparent. rewrite bool_decide_eq_false_2; [done|].
        by eapply Hnochild.
  - cbn. rewrite Hheads2, Hheads1.
    rewrite delete_insert_eq. by rewrite delete_id.
  - cbn. by rewrite Hcur2.
Qed.

Lemma createBranch_then_branchMove_witness :
  let w1 := adopt (repo_main, db_empty) "tmp" EmptyString in
  let w2 := rename w1 "feature" false in
  ∃ repo2',
    createBranch repo_main db_empty "feature" EmptyString
    = (None, repo2', w2.2)
    ∧ heads repo2' = heads w2.1
    ∧ currentBranch repo2' = currentBranch w2.1.
Proof.
  apply (createBranch_then_branchMove repo_main db_empty "tmp" EmptyString
           (adopt (repo_main, db_empty) "tmp" EmptyString).1
           (adopt (repo_main, db_empty) "tmp" EmptyString).2
           "feature" false).
  - apply keyed_empty.
  - reflexivity.
  - intros k c Hc. unfold db_empty in Hc. cbn [branches] in Hc.
    by rewrite lookup_empty in Hc.
  - reflexivity.
  - reflexivity.
  - vm_compute. reflexivity.
  - vm_compute. reflexivity.
Defined.

(** ** The command line *)

(** X17. Which parent a run of the command without [--rename] stacks the
    new branch on: the second argument when there is one, else the
    [--parent] flag, else (the flag being empty) the branch that is checked
    out. A successful run has opened the repository and the database, has
    left the chosen parent in [branchFlags.Parent], and has committed a
    record for the first argument whose parent name is that parent as
    [createBranch] resolves it; the new branch is checked out. *)
Theorem RunE_adopts_on getRepo getDB flags branchName rest repo' db' flags' :
  Rename flags = false →
  (List.length rest ≤ 1)%nat →
  RunE getRepo getDB flags (branchName :: rest)
  = (CmdRan (None, repo', db'), flags') →
  ∃ repo db d P,
    getRepo = Some repo ∧ getDB repo = Some db
    ∧ DefaultBranch repo = Some d
    ∧ resolveParent repo d (default (Parent flags) (head rest)) = Some P
    ∧ Parent flags' = default (Parent flags) (head rest)
    ∧ parentName <$> branches db' !! branchName = Some P
    ∧ currentBranch repo' = Some branchName.
Proof.
  intros Hrename Hlen. unfold RunE. rewrite Hrename.
  destruct getRepo as [repo|]; [|discriminate].
  destruct (getDB repo) as [db|] eqn:Hdb; [|discriminate].
  assert (∀ parent,
            createBranch repo db branchName parent = (None, repo', db') →
            ∃ d P,
              DefaultBranch repo = Some d
              ∧ resolveParent repo d parent = Some P
              ∧ parentName <$> branches db' !! branchName = Some P
              ∧ currentBranch repo' = Some branchName) as Hadopt.
  { intros parent Hrun.
    apply createBranch_success in Hrun
      as (d & P & isTrunk & head & start & commit
          & Hd & Hp & _ & _ & _ & Hco & _ & ->).
    apply CheckoutBranch_new in Hco as (_ & Hok & _).
    destruct (Hok eq_refl) as [_ Hcur].
    exists d, P. cbn [branches]. by rewrite lookup_insert_eq. }
  destruct rest as [|parent [|other rest]]; [| |cbn in Hlen; lia].
  - intros [= Hrun <-].
    destruct (Hadopt _ Hrun) as (d & P & ? & ? & ? & ?).
    exists repo, db, d, P. done.
  - cbn [Parent]. intros [= Hrun <-].
    destruct (Hadopt _ Hrun) as (d & P & ? & ? & ? & ?).
    exists repo, db, d, P. done.
Qed.

Lemma RunE_adopts_on_witness :
  let run :=
    RunE (Some repo_stack) (fun _ => Some db_stack)
         (mkBranchFlags "feature-2" false false) ["feature-3"; "feature-1"] in
  ∃ repo db d P,
    Some repo_stack = Some repo ∧ Some db_stack = Some db
    ∧ DefaultBranch repo = Some d
    ∧ resolveParent repo d "feature-1" = Some P
    ∧ Parent run.2 = "feature-1"
    ∧ parentName
        <$> branches (createBranch repo_stack db_stack "feature-3" "feature-1").2
            !! "feature-3"
      = Some P
    ∧ currentBranch (createBranch repo_stack db_stack "feature-3" "feature-1").1.2
      = Some "feature-3".
Proof.
  apply (RunE_adopts_on (Some repo_stack) (fun _ => Some db_stack)
           (mkBranchFlags "feature-2" false false) "feature-3" ["feature-1"]
           (createBranch repo_stack db_stack "feature-3" "feature-1").1.2
           (createBranch repo_stack db_stack "feature-3" "feature-1").2
           (mkBranchFlags "feature-1" false false)).
  - reflexivity.
  - cbn. lia.
  - vm_compute. reflexivity.
Defined.

(** ** Edge cases *)

(** X18. An argument that starts with [:] is not refused: it names the
    empty string as the old branch. With no record and no Git branch of
    that name the rename succeeds as a metadata-only one, leaves the
    repository as it was and commits a record for the new name with the
    default branch as trunk parent, although nothing was renamed. *)
Theorem branchMove_empty_old_name repo db new force d :
  new ≠ EmptyString →
  strings.Count new colon = 0 →
  keyed (branches db) →
  branches db !! EmptyString = None →
  DefaultBranch repo = Some d →
  d ≠ EmptyString →
  DoesBranchExist repo EmptyString = Some false →
  commitFails db = false →
  ∃ db',
    branchMove repo db (String colon new) force = (None, repo, db')
    ∧ tx db' = TxCommitted
    ∧ branches db' !! new
      = Some (mkBranch new (mkBranchState d true EmptyString) None).
Proof.
  intros Hnew Hc Hk Hnone Hd Hdne He Hcf.
  assert (moveNames repo (String colon new) = Some (EmptyString, new)) as Hn.
  { unfold moveNames. by cbn. }
  assert (metaOrDefault repo (branches db) EmptyString = Some (defaultMeta d))
    as Hm by (unfold metaOrDefault; by rewrite Hnone, Hd).
  rewrite (branchMove_proceeds _ _ _ _ EmptyString new (defaultMeta d));
    try done.
  2: { cbn. rewrite Hc. lia. }
  unfold moveOutcome. rewrite He, Hcf.
  eexists. split; [done|]. cbn [tx branches]. split; [done|].
  rewrite stagedMove_new by done.
  unfold reparent. rewrite bool_decide_eq_false_2; [done|].
  cbn. congruence.
Qed.

Lemma branchMove_empty_old_name_witness :
  ∃ db',
    branchMove repo_main db_empty ":feature" false = (None, repo_main, db')
    ∧ tx db' = TxCommitted
    ∧ branches db' !! "feature"
      = Some (mkBranch "feature" (mkBranchState "main" true EmptyString) None).
Proof.
  apply (branchMove_empty_old_name repo_main db_empty "feature" false "main").
  - discriminate.
  - reflexivity.
  - apply keyed_empty.
  - reflexivity.
  - reflexivity.
  - discriminate.
  - reflexivity.
  - reflexivity.
Defined.

(** X19. A name can be adopted once: after a successful adoption, adopting
    the same name again, on whatever parent, fails without changing the
    committed records, Git's branches or the checked-out branch (Git
    refuses to create a branch that exists, and the transaction is
    aborted). *)
Theorem createBranch_twice repo db branchName parent repo1 db1 parent' :
  createBranch repo db branchName parent = (None, repo1, db1) →
  ∃ e repo2 db2,
    createBranch repo1 db1 branchName parent' = (Some e, repo2, db2)
    ∧ e ≠ CommitError
    ∧ branches db2 = branches db1
    ∧ heads repo2 = heads repo1
    ∧ currentBranch repo2 = currentBranch repo1.
Proof.
  intros Hfirst.
  apply createBranch_success in Hfirst
    as (d & P & isTrunk & head & start & commit
        & _ & _ & _ & _ & _ & Hco & _ & _).
  apply CheckoutBranch_new in Hco as (_ & Hok & _).
  destruct (Hok eq_refl) as [Hheads _].
  assert (is_Some (heads repo1 !! branchName)) as [c0 Hexists]
    by (rewrite Hheads, lookup_insert_eq; eauto).
  destruct (createBranch_early_or_adopt repo1 db1 branchName parent')
    as [(e0 & db0 & -> & Hdb & He)|(P' & isTrunk' & head' & start' & ->)].
  - exists e0, repo1, db0. repeat split; try done.
    by destruct Hdb as [->| ->].
  - unfold adoptOutcome.
    destruct (RevParse repo1 start') as [commit'|].
    2: { do 3 eexists. split; [done|]. repeat split; try done. }
    assert (∃ r2, CheckoutBranch repo1 branchName true commit' = (false, r2)
                  ∧ heads r2 = heads repo1
                  ∧ currentBranch r2 = currentBranch repo1)
      as (r2 & -> & ? & ?).
    { unfold CheckoutBranch.
      destruct (fails repo1 OpCheckoutBranch); [by eexists|].
      rewrite Hexists. by eexists. }
    do 3 eexists. split; [done|]. repeat split; try done.
Qed.

Lemma createBranch_twice_witness :
  let w1 := adopt (repo_main, db_empty) "feature" EmptyString in
  ∃ e repo2 db2,
    createBranch w1.1 w1.2 "feature" "main" = (Some e, repo2, db2)
    ∧ e ≠ CommitError
    ∧ branches db2 = branches w1.2
    ∧ heads repo2 = heads w1.1
    ∧ currentBranch repo2 = currentBranch w1.1.
Proof.
  apply (createBranch_twice repo_main db_empty "feature" EmptyString).
  vm_compute. reflexivity.
Defined.

(** With no parent given, the parent is the branch that is checked out. *)
Lemma resolveParent_current repo d cur :
  currentBranch repo = Some cur →
  strings.stripPrefix cur (GetRemoteName repo +:+ "/") = None →
  resolveParent repo d EmptyString = Some cur.
Proof.
  intros Hcur Hlocal. unfold resolveParent, CurrentBranchName.
  rewrite bool_decide_eq_true_2 by done. rewrite Hcur. cbn zeta.
  rewrite bool_decide_eq_false_2.
  - unfold strings.TrimPrefix. by rewrite Hlocal.
  - intros ->.
    change (GetRemoteName repo +:+ "/HEAD")
      with (GetRemoteName repo +:+ String "/" "HEAD") in Hlocal.
    rewrite <- append_assoc_slash, stripPrefix_append in Hlocal. done.
Qed.

(** X20. With the flags as [init] registers them and a single argument,
    a successful run of the command stacks the new branch on the branch
    that was checked out: the record committed for the argument names that
    branch as its parent (for a checked-out branch whose name does not
    start with the remote name), the new branch is the one checked out
    afterwards, and the flags are as they were. *)
Theorem RunE_default_parent getRepo getDB branchName repo' db' flags' :
  RunE getRepo getDB branchFlags_init [branchName]
  = (CmdRan (None, repo', db'), flags') →
  ∃ repo db cur,
    getRepo = Some repo ∧ getDB repo = Some db
    ∧ currentBranch repo = Some cur
    ∧ flags' = branchFlags_init
    ∧ currentBranch repo' = Some branchName
    ∧ (strings.stripPrefix cur (GetRemoteName repo +:+ "/") = None →
       parentName <$> branches db' !! branchName = Some cur).
Proof.
  unfold RunE. cbn [Rename branchFlags_init Parent].
  destruct getRepo as [repo|]; [|discriminate].
  destruct (getDB repo) as [db|] eqn:Hdb; [|discriminate].
  intros [= Hrun <-].
  apply createBranch_success in Hrun
    as (d & P & isTrunk & head & start & commit
        & Hd & Hp & _ & _ & _ & Hco & _ & ->).
  apply CheckoutBranch_new in Hco as (_ & Hok & _).
  destruct (Hok eq_refl) as [_ Hcur'].
  destruct (currentBranch repo) as [cur|] eqn:Hcur.
  2: { unfold resolveParent, CurrentBranchName in Hp.
       rewrite bool_decide_eq_true_2 in Hp by done.
       by rewrite Hcur in Hp. }
  exists repo, db, cur.
  split; [done|]. split; [done|]. split; [done|]. split; [done|].
  split; [done|].
  intros Hlocal. rewrite (resolveParent_current _ _ cur) in Hp by done.
  injection Hp as <-. cbn [branches]. by rewrite lookup_insert_eq.
Qed.

Lemma RunE_default_parent_witness :
  let out := createBranch repo_stack db_stack "feature-3" EmptyString in
  ∃ repo db cur,
    Some repo_stack = Some repo ∧ Some db_stack = Some db
    ∧ currentBranch repo = Some cur
    ∧ branchFlags_init = branchFlags_init
    ∧ currentBranch out.1.2 = Some "feature-3"
    ∧ (strings.stripPrefix cur (GetRemoteName repo +:+ "/") = None →
       parentName <$> branches out.2 !! "feature-3" = Some cur).
Proof.
  apply (RunE_default_parent (Some repo_stack) (fun _ => Some db_stack)
           "feature-3"
           (createBranch repo_stack db_stack "feature-3" EmptyString).1.2
           (createBranch repo_stack db_stack "feature-3" EmptyString).2
           branchFlags_init).
  vm_compute. reflexivity.
Defined.
